(** * PixelGooeyTooltip: the tooltip class and its input dispatcher

    A shallow embedding of the two modules of the demo: [js/index.js] (the
    per-trigger event listeners) and the module it imports as
    [./tooltip.js] (class [Tooltip]), with the statements of the
    specification settled against it.

    Conventions.
    - JavaScript numbers that the code only adds, subtracts and compares are
      integers [Z] (CSS pixels, milliseconds, grid counts); a number that can
      be [NaN] has type [num].  Durations and stagger steps, written as
      decimal literals in the source, are rationals [Q].
    - A JavaScript string is a [string] of bytes, the UTF-8 writing of its
      text; case mapping is the ASCII one.  [parseInt] gives the Number
      nearest to the numeral, so an integer of 2^53 or more in magnitude
      may be read as a neighbour.
    - A DOM element is a tree; a reference to a descendant of the tooltip
      element is its path of child indices from that element.
    - A method that mutates [this] or the animation engine is a function in
      the monad [M]: state passing over [world], with a thrown exception
      leaving the state as it was at the throw.
    - The animation engine is the timelines it has made for the instance,
      with what was put on them.  It looks at the targets of a tween when
      the tween is made: a [null] as first target makes it throw, an empty
      array makes it warn on the console. *)

From Stdlib Require Import ZArith QArith String Ascii List Lia Bool.
From stdpp Require Import base option list strings gmap pretty.

Open Scope string_scope.
Open Scope Z_scope.
Set Warnings "-register-all".

(** ** JavaScript values used by the code *)

Module JS.

(** A number that may be NaN. *)
Inductive num :=
| Num (z : Z)
| NaN.

(** [a + b], [a - b] with a possibly-NaN left operand. *)
Definition add (a : num) (b : Z) : num :=
  match a with Num x => Num (x + b) | NaN => NaN end.

Definition sub (a : num) (b : Z) : num :=
  match a with Num x => Num (x - b) | NaN => NaN end.

(** [a > b] and [a < b]: every comparison with NaN is false. *)
Definition gt (a : num) (b : Z) : bool :=
  match a with Num x => b <? x | NaN => false end.

Definition lt (a : num) (b : Z) : bool :=
  match a with Num x => x <? b | NaN => false end.

(** Truthiness of a number: [0] and [NaN] are falsy. *)
Definition truthy (a : num) : bool :=
  match a with Num x => negb (x =? 0) | NaN => false end.

(** [a || b] where [b] is a number that is not NaN, so that the result is
    one as well. *)
Definition or (a : num) (b : Z) : Z :=
  match a with
  | Num x => if truthy a then x else b
  | NaN => b
  end.

(** [c.toUpperCase()] on one ASCII character. *)
Definition upper (c : ascii) : ascii :=
  let n := nat_of_ascii c in
  if (97 <=? n)%nat && (n <=? 122)%nat then ascii_of_nat (n - 32) else c.

(** [s.charAt(0).toUpperCase() + s.slice(1)]. *)
Definition capitalize (s : string) : string :=
  match s with
  | EmptyString => EmptyString
  | String c rest => String (upper c) rest
  end.

(** White space skipped by [parseInt] (StrWhiteSpaceChar).  A string is
    the UTF-8 writing of the text.  In one byte: space, tab, line feed,
    vertical tab, form feed, carriage return. *)
Definition is_space (c : ascii) : bool :=
  let n := nat_of_ascii c in
  (n =? 32)%nat || ((9 <=? n)%nat && (n <=? 13)%nat).

(** The first byte of a character written in more than one byte. *)
Definition is_lead (c : ascii) : bool := (192 <=? nat_of_ascii c)%nat.

(** In two bytes: U+00A0. *)
Definition is_space2 (a b : ascii) : bool :=
  (nat_of_ascii a =? 194)%nat && (nat_of_ascii b =? 160)%nat.

(** In three bytes: U+1680, U+2000 to U+200A, U+2028, U+2029, U+202F,
    U+205F, U+3000 and U+FEFF. *)
Definition is_space3 (a b c : ascii) : bool :=
  let x := nat_of_ascii a in
  let y := nat_of_ascii b in
  let z := nat_of_ascii c in
  ((x =? 225) && (y =? 154) && (z =? 128))%nat
  || ((x =? 226) && (y =? 128)
      && (((128 <=? z) && (z <=? 138)) || (z =? 168) || (z =? 169) || (z =? 175)))%nat
  || ((x =? 226) && (y =? 129) && (z =? 159))%nat
  || ((x =? 227) && (y =? 128) && (z =? 128))%nat
  || ((x =? 239) && (y =? 187) && (z =? 191))%nat.

Fixpoint trim_start (s : string) : string :=
  match s with
  | String c rest =>
      if is_space c then trim_start rest
      else if negb (is_lead c) then s
      else
        match rest with
        | String c2 rest2 =>
            if is_space2 c c2 then trim_start rest2
            else
              match rest2 with
              | String c3 rest3 => if is_space3 c c2 c3 then trim_start rest3 else s
              | EmptyString => s
              end
        | EmptyString => s
        end
  | EmptyString => EmptyString
  end.

Definition digit (c : ascii) : option Z :=
  let n := nat_of_ascii c in
  if (48 <=? n)%nat && (n <=? 57)%nat then Some (Z.of_nat (n - 48)) else None.

(** The longest prefix of decimal digits, read as an integer; [acc] is
    [None] while no digit has been read. *)
Fixpoint digits (acc : option Z) (s : string) : option Z :=
  match s with
  | String c rest =>
      match digit c with
      | Some d => digits (Some (10 * default 0 acc + d)) rest
      | None => acc
      end
  | EmptyString => acc
  end.

(** The Number for a natural number [n]: [n] itself below 2^53, and
    otherwise the nearest number with 53 significant bits, the even one of
    two that are as near.  (Beyond the largest such number JavaScript has
    Infinity, which is no [num]; [n] is rounded in the same way here.) *)
Definition double (n : Z) : Z :=
  if n <? 9007199254740992 then n
  else
    let e := Z.log2 n - 52 in
    let q := Z.shiftr n e in
    let r := n - Z.shiftl q e in
    let half := Z.shiftl 1 (e - 1) in
    Z.shiftl (if (half <? r) || ((r =? half) && Z.odd q) then q + 1 else q) e.

(** [parseInt(s, 10)] for a string [s]: leading white space, an optional
    sign, then decimal digits up to the first other character; NaN when
    there is no digit. *)
Definition parseInt_string (s : string) : num :=
  let s := trim_start s in
  let '(sign, s) :=
    match s with
    | String "-" rest => (-1, rest)
    | String "+" rest => (1, rest)
    | _ => (1, s)
    end in
  match digits None s with
  | Some n => Num (sign * double n)
  | None => NaN
  end.

(** [parseInt(v, 10)] for a dataset entry: a missing entry is [undefined],
    converted to the string ["undefined"]. *)
Definition parseInt (v : option string) : num :=
  parseInt_string (default "undefined" v).

End JS.

(** ** The browser state the script reads *)

(** Window metrics and the layout box of the tooltip element
    ([this.DOM.el.offsetWidth], [offsetHeight]). *)
Record browser := {
  pageXOffset : Z;
  pageYOffset : Z;
  documentElement_scrollLeft : Z;
  documentElement_scrollTop : Z;
  innerWidth : Z;
  innerHeight : Z;
  el_offsetWidth : Z;
  el_offsetHeight : Z;
}.

(** An object with numeric [clientX], [clientY]: a MouseEvent or a Touch. *)
Record pointer := { clientX : Z; clientY : Z }.

(** What the listeners and the tooltip methods receive as [event]. *)
Inductive jsevent :=
| MouseEvent (p : pointer)
| TouchEvent (touches : list pointer)   (* has no clientX/clientY of its own *)
| Touch (p : pointer)
| Undefined.

Record position := { left : JS.num; top : JS.num }.

(** ** Exceptions *)

Inductive error :=
| TypeError (msg : string).

Inductive result (A : Type) :=
| Ok (a : A)
| Throw (e : error).
Arguments Ok {A} a.
Arguments Throw {A} e.

(** ** DOM *)

Module Dom.

(** An element with its element children (text is not modelled). *)
Inductive element := Element {
  localName : string;
  classList : list string;
  dataset : gmap string string;
  style : gmap string string;
  childNodes : list element;
}.

(** A descendant of an element, as child indices from that element. *)
Definition path := list nat.

Definition has_class (c : string) (e : element) : bool :=
  existsb (String.eqb c) (classList e).

Definition has_tag (t : string) (e : element) : bool :=
  String.eqb t (localName e).

(** Search among the children [l], numbered from [i], and below them with
    [rec], in document order. *)
Definition first_in (p : element -> bool) (rec : element -> option path)
    : list element -> nat -> option path :=
  fix go (l : list element) (i : nat) : option path :=
    match l with
    | [] => None
    | c :: l' =>
        if p c then Some [i]
        else match rec c with
             | Some q => Some (i :: q)
             | None => go l' (S i)
             end
    end.

Definition all_in (p : element -> bool) (rec : element -> list path)
    : list element -> nat -> list path :=
  fix go (l : list element) (i : nat) : list path :=
    match l with
    | [] => []
    | c :: l' =>
        ((if p c then [[i]] else []) ++ map (cons i) (rec c) ++ go l' (S i))%list
    end.

(** First descendant (document order) satisfying [p]: [querySelector]. *)
Fixpoint select_first (p : element -> bool) (e : element) {struct e} : option path :=
  first_in p (select_first p) (childNodes e) 0%nat.

(** All descendants (document order) satisfying [p]: [querySelectorAll]. *)
Fixpoint select_all (p : element -> bool) (e : element) {struct e} : list path :=
  all_in p (select_all p) (childNodes e) 0%nat.

Fixpoint node_at (q : path) (e : element) : option element :=
  match q with
  | [] => Some e
  | i :: q' =>
      match childNodes e !! i with
      | Some c => node_at q' c
      | None => None
      end
  end.

(** In-place update of the node at [q]. *)
Fixpoint modify_at (f : element -> element) (q : path) (e : element) : element :=
  match q with
  | [] => f e
  | i :: q' =>
      Element (localName e) (classList e) (dataset e) (style e)
              (alter (modify_at f q') i (childNodes e))
  end.

Definition set_style (k v : string) (e : element) : element :=
  Element (localName e) (classList e) (dataset e) (<[k := v]> (style e))
          (childNodes e).

Definition set_childNodes (l : list element) (e : element) : element :=
  Element (localName e) (classList e) (dataset e) (style e) l.

(** [classList.add], [classList.remove]. *)
Definition class_add (c : string) (e : element) : element :=
  Element (localName e)
          (if has_class c e then classList e else (classList e ++ [c])%list)
          (dataset e) (style e) (childNodes e).

Definition class_remove (c : string) (e : element) : element :=
  Element (localName e)
          (filter (fun x => x <> c) (classList e))
          (dataset e) (style e) (childNodes e).

(** [<div></div>] as parsed. *)
Definition empty_div : element := Element "div" [] ∅ ∅ [].

Fixpoint strip_prefix (p s : string) : option string :=
  match p, s with
  | EmptyString, _ => Some s
  | String a p', String b s' =>
      if Ascii.eqb a b then strip_prefix p' s' else None
  | String _ _, EmptyString => None
  end.

(** The fragment parser behind the [innerHTML] setter, on the markup this
    program writes: a run of [<div></div>].  Like the HTML parser it never
    fails; markup of any other form is outside this model and the parser
    stops at it. *)
Fixpoint parse_fragment (fuel : nat) (html : string) : list element :=
  match fuel with
  | O => []
  | S fuel' =>
      match strip_prefix "<div></div>" html with
      | Some rest => empty_div :: parse_fragment fuel' rest
      | None => []
      end
  end.

(** [e.innerHTML = html]. *)
Definition set_innerHTML (html : string) (e : element) : element :=
  set_childNodes (parse_fragment (String.length html) html) e.

End Dom.
Import Dom.

(** ** The animation engine, as far as the program drives it *)

Module Gsap.

(** A value of a tween's [vars] object. *)
Inductive value :=
| VNum (q : Q)
| VRandom (lo hi : Z)                   (* [() => gsap.utils.random(lo, hi)] *)
| VDelay (event : jsevent) (cell : nat) (* the distance-weighted delay of effect 1 *)
| VStagger (each : Q) (from : string) (grid : option string).

Definition vars := list (string * value).

(** The two closures that [animateTooltipContent] adds to a timeline. *)
Inductive callback :=
| GlitchTitle
| GlitchDescription.

(** What is put on a timeline, with its position parameter. *)
Inductive child :=
| FromTo (targets : list (option path)) (fromVars toVars : vars) (pos : Q)
| To (targets : list (option path)) (toVars : vars) (pos : Q)
| Add (cb : callback) (pos : Q).

Record timeline := {
  duration : Q;
  ease : string;
  killed : bool;
  children : list child;
}.

(** [tl.kill()]. *)
Definition kill (t : timeline) : timeline :=
  {| duration := duration t; ease := ease t; killed := true;
     children := children t |}.

Definition add_child (c : child) (t : timeline) : timeline :=
  {| duration := duration t; ease := ease t; killed := killed t;
     children := (children t ++ [c])%list |}.

(** The two calls that concern a whole timeline, [tl.kill()] and
    [gsap.timeline(...)], with the index of the timeline killed or made. *)
Inductive request :=
| KillTimeline (i : nat)
| NewTimeline (i : nat).

End Gsap.
Import Gsap.

(** ** The tooltip instance *)

(** [this.DOM].  A reference is the path of the node in the tree of [el]
    (paths are those valid when the node was queried; a content block that
    sits inside the background block is detached by [#layout] in a browser
    and is not followed here). *)
Record DOMrefs := {
  el : element;
  bg : option path;
  content : option path;
  contentTitle : option path;
  contentDescription : option path;
  cells : option (list path);
}.

Record Tooltip := {
  DOM : DOMrefs;
  rows : Z;
  cols : Z;
  isOpen : bool;
  tl : option nat;      (* index of the timeline in the engine, or undefined *)
}.

(** The instance together with what its methods act on: the engine's
    timelines created for it, the kill and timeline calls it has made on the
    engine, oldest first, and the console. *)
Record world := {
  this : Tooltip;
  timelines : list timeline;
  requests : list request;
  console : list string;
}.

(** ** The monad of methods and listeners

    State passing over a state [S] with exceptions; the state reached at a
    throw is kept, as the mutations made before it are. *)

Definition St (S A : Type) : Type := S -> result A * S.

Definition ret {S A} (a : A) : St S A := fun s => (Ok a, s).

Definition bind {S A B} (m : St S A) (k : A -> St S B) : St S B :=
  fun s =>
    match m s with
    | (Ok a, s') => k a s'
    | (Throw e, s') => (Throw e, s')
    end.

Definition throw {S A} (e : error) : St S A := fun s => (Throw e, s).

Definition gets {S A} (f : S -> A) : St S A := fun s => (Ok (f s), s).

Definition modify {S} (f : S -> S) : St S unit := fun s => (Ok tt, f s).

Definition lift {S A} (r : result A) : St S A := fun s => (r, s).

(** Methods of the instance run on its [world]. *)
Definition M (A : Type) : Type := St world A.

Declare Scope js_scope.
Delimit Scope js_scope with js.
Notation "'let!' x ':=' m 'in' k" := (bind m (fun x => k))
  (at level 10, x name, m at level 100, k at level 200) : js_scope.
Notation "m '>>' k" := (bind m (fun _ => k))
  (at level 100, k at level 200, right associativity) : js_scope.
Open Scope js_scope.

(** Field updates. *)
Definition set_this (f : Tooltip -> Tooltip) (w : world) : world :=
  {| this := f (this w); timelines := timelines w; requests := requests w;
     console := console w |}.

Definition set_timelines (f : list timeline -> list timeline) (w : world) : world :=
  {| this := this w; timelines := f (timelines w); requests := requests w;
     console := console w |}.

Definition set_console (f : list string -> list string) (w : world) : world :=
  {| this := this w; timelines := timelines w; requests := requests w;
     console := f (console w) |}.

(** The call [r] is made on the engine. *)
Definition request_of (r : request) (w : world) : world :=
  {| this := this w; timelines := timelines w;
     requests := (requests w ++ [r])%list; console := console w |}.

Definition with_isOpen (b : bool) (t : Tooltip) : Tooltip :=
  {| DOM := DOM t; rows := rows t; cols := cols t; isOpen := b; tl := tl t |}.

Definition with_tl (i : option nat) (t : Tooltip) : Tooltip :=
  {| DOM := DOM t; rows := rows t; cols := cols t; isOpen := isOpen t; tl := i |}.

Definition with_el (f : element -> element) (t : Tooltip) : Tooltip :=
  {| DOM := {| el := f (el (DOM t)); bg := bg (DOM t); content := content (DOM t);
               contentTitle := contentTitle (DOM t);
               contentDescription := contentDescription (DOM t);
               cells := cells (DOM t) |};
     rows := rows t; cols := cols t; isOpen := isOpen t; tl := tl t |}.

(** [console.warn(msg)]. *)
Definition console_warn (msg : string) : M unit :=
  modify (set_console (fun l => (l ++ [msg])%list)).

(** ** Class [Tooltip] *)

(** [for (let i = 0; i < n; i++) s = body i s], by fuel. *)
Fixpoint for_from {T : Type} (fuel : nat) (i n : Z) (body : Z -> T -> T) (s : T) : T :=
  match fuel with
  | O => s
  | S fuel' =>
      if i <? n then for_from fuel' (i + 1) n body (body i s) else s
  end.

(** The loop runs to its end: [n] iterations are enough fuel. *)
Definition for_lt {T : Type} (n : Z) (body : Z -> T -> T) (s : T) : T :=
  for_from (Z.to_nat n) 0 n body s.

(** The string built by the two loops of [#layout]. *)
Definition layout_html (rows cols : Z) : string :=
  for_lt rows (fun _ strHTML =>
    for_lt cols (fun _ strHTML => strHTML ++ "<div></div>") strHTML) "".

(** [#layout()], on the fields it reads; returns the updated tree of [el]
    and the new [DOM.cells]. *)
Definition layout (el : element) (bg : option path) (rows cols : Z)
    : result (element * list path) :=
  let strHTML := layout_html rows cols in
  match bg with
  | None => Throw (TypeError "Cannot set properties of null (setting 'innerHTML')")
  | Some b =>
      let el := modify_at (set_innerHTML strHTML) b el in
      let el := set_style "--tt-columns" (pretty cols) el in
      let el := set_style "--tt-rows" (pretty rows) el in
      let cells :=
        match node_at b el with
        | Some bg_node => map (app b) (select_all (has_tag "div") bg_node)
        | None => []
        end in
      Ok (el, cells)
  end.

(** [node.querySelector(sel)] for the node at [from] in the tree [el]. *)
Definition querySelector (sel : element -> bool) (from : path) (el : element)
    : option path :=
  match node_at from el with
  | Some n => app from <$> select_first sel n
  | None => None
  end.

(** [new Tooltip(DOM_el)].  The fields are assigned in the order of the
    source; an exception leaves no instance behind. *)
Definition constructor (DOM_el : element) : result Tooltip :=
  let el := DOM_el in
  let bg := querySelector (has_class "tooltip__bg") [] el in
  let content := querySelector (has_class "tooltip__content") [] el in
  match content with
  | None => Throw (TypeError "Cannot read properties of null (reading 'querySelector')")
  | Some c =>
      let contentTitle := querySelector (has_class "tooltip__content-title") c el in
      let contentDescription := querySelector (has_class "tooltip__content-desc") c el in
      let rows := JS.or (JS.parseInt (dataset el !! "rows")) 4 in
      let cols := JS.or (JS.parseInt (dataset el !! "cols")) 4 in
      match layout el bg rows cols with
      | Throw e => Throw e
      | Ok (el, cells) =>
          Ok {| DOM := {| el := el; bg := bg; content := content;
                          contentTitle := contentTitle;
                          contentDescription := contentDescription;
                          cells := Some cells |};
                rows := rows; cols := cols; isOpen := false; tl := None |}
      end
  end.

(** [event.clientX], [event.clientY] of an event object; a missing property
    is [undefined], which is NaN in arithmetic. *)
Definition event_clientX (e : jsevent) : JS.num :=
  match e with
  | MouseEvent p | Touch p => JS.Num (clientX p)
  | _ => JS.NaN
  end.

Definition event_clientY (e : jsevent) : JS.num :=
  match e with
  | MouseEvent p | Touch p => JS.Num (clientY p)
  | _ => JS.NaN
  end.

(** [calculateTooltipPosition(event)]. *)
Definition calculateTooltipPosition (b : browser) (event : jsevent) : result position :=
  match event with
  | Undefined => Throw (TypeError "Cannot destructure property 'clientX' of 'event'")
  | _ =>
      let clientX := event_clientX event in
      let clientY := event_clientY event in
      let scrollLeft := JS.or (JS.Num (pageXOffset b)) (documentElement_scrollLeft b) in
      let scrollTop := JS.or (JS.Num (pageYOffset b)) (documentElement_scrollTop b) in
      let viewportWidth := innerWidth b in
      let viewportHeight := innerHeight b in
      let tooltipWidth := el_offsetWidth b in
      let tooltipHeight := el_offsetHeight b in
      let left := JS.add clientX scrollLeft in
      let top := JS.add clientY scrollTop in
      let left :=
        if JS.gt (JS.add clientX tooltipWidth) viewportWidth
        then JS.add (JS.sub clientX tooltipWidth) scrollLeft else left in
      let top :=
        if JS.gt (JS.add clientY tooltipHeight) viewportHeight
        then JS.add (JS.sub clientY tooltipHeight) scrollTop else top in
      let left := if JS.lt left scrollLeft then JS.Num scrollLeft else left in
      let top := if JS.lt top scrollTop then JS.Num scrollTop else top in
      Ok {| left := left; top := top |}
  end.

(** [style[k] = `${n}px`]: a NaN gives ["NaNpx"], which is no CSS length, and
    the declaration is left as it was. *)
Definition set_px (k : string) (n : JS.num) (e : element) : element :=
  match n with
  | JS.Num z => set_style k (pretty z ++ "px") e
  | JS.NaN => e
  end.

(** [updatePosition(event)]. *)
Definition updatePosition (b : browser) (event : jsevent) : M unit :=
  let! position := lift (calculateTooltipPosition b event) in
  modify (set_this (with_el (set_px "left" (left position)))) >>
  modify (set_this (with_el (set_px "top" (top position)))).

(** [createDefaultTimeline({ duration = 0.1, ease = 'expo' } = {})]: kills
    [this.tl] when there is one, then asks the engine for a new timeline
    and returns it (here: its index). *)
Definition createDefaultTimeline (duration : Q) (ease : string) : M nat :=
  let! old := gets (fun w => tl (this w)) in
  match old with
  | Some i =>
      modify (request_of (KillTimeline i)) >>
      modify (set_timelines (alter kill i))
  | None => ret tt
  end >>
  let! id := gets (fun w => length (timelines w)) in
  modify (request_of (NewTimeline id)) >>
  modify (set_timelines (fun l =>
    (l ++ [ {| Gsap.duration := duration; Gsap.ease := ease;
               killed := false; children := [] |} ])%list)) >>
  ret id.

Definition default_duration : Q := 1 # 10.
Definition default_ease : string := "expo".

(** The [onStart] and [onComplete] closures given to every timeline. *)
Definition onStart : M unit :=
  let! open := gets (fun w => isOpen (this w)) in
  if open then
    modify (set_this (with_el (set_style "z-index" "99999"))) >>
    modify (set_this (with_el (class_add "tooltip--show")))
  else
    modify (set_this (with_el (set_style "z-index" "0"))).

Definition onComplete : M unit :=
  let! open := gets (fun w => isOpen (this w)) in
  if negb open then modify (set_this (with_el (class_remove "tooltip--show")))
  else ret tt.

(** The engine's warning for a tween without targets; [shown] is the
    targets argument as a string, which is empty for an empty array.  (The
    address at the end is that of the engine's site, which has changed
    between releases.) *)
Definition target_not_found (shown : string) : string :=
  "GSAP target " ++ shown ++ " not found. https://gsap.com".

(** What the engine does with the targets of a tween before it makes the
    tween: an empty array (or [null] in its place) is warned about on the
    console and the tween is made without targets; otherwise it reads
    [targets[0]._gsap], which throws when the first target is [null]; a
    [null] further on is dropped from the targets. *)
Definition check_targets (shown : string) (targets : list (option path)) : M unit :=
  match targets with
  | [] => console_warn (target_not_found shown)
  | None :: _ => throw (TypeError "Cannot read properties of null (reading '_gsap')")
  | Some _ :: _ => ret tt
  end.

(** The targets of a child; a callback has none. *)
Definition targets_of (c : child) : option (list (option path)) :=
  match c with
  | FromTo targets _ _ _ | To targets _ _ => Some targets
  | Add _ _ => None
  end.

(** [this.tl.<op>(...)]: put a child on the current timeline.  A tween is
    made, from its targets, before it is put there; [shown] is its targets
    argument as a string. *)
Definition tl_put (shown : string) (c : child) : M unit :=
  let! cur := gets (fun w => tl (this w)) in
  match cur with
  | Some i =>
      match targets_of c with
      | Some targets => check_targets shown targets
      | None => ret tt
      end >>
      modify (set_timelines (alter (add_child c) i))
  | None => throw (TypeError "Cannot read properties of undefined (reading 'fromTo')")
  end.

(** The same for a child that is a callback, or a tween on one node or on
    an array. *)
Definition tl_add (c : child) : M unit := tl_put "" c.

(** [animateTooltipContent()]. *)
Definition animateTooltipContent : M unit :=
  let! open := gets (fun w => isOpen (this w)) in
  let! title := gets (fun w => contentTitle (DOM (this w))) in
  let! desc := gets (fun w => contentDescription (DOM (this w))) in
  tl_add (FromTo [title; desc]
            [("opacity", VNum (if open then 0 else 1))]
            [("duration", VNum (2 # 10));
             ("opacity", VNum (if open then 1 else 0));
             ("stagger", VNum (if open then 2 # 10 else 0))]
            (if open then 4 # 10 else 0)) >>
  tl_add (Add GlitchTitle (if open then 8 # 10 else 0)) >>
  tl_add (Add GlitchDescription (if open then 1 else 0)).

(** The closures added by [animateTooltipContent], as the engine runs them:
    [node.classList[this.isOpen ? 'add' : 'remove']('glitch')]. *)
Definition run_callback (cb : callback) : M unit :=
  let! node :=
    gets (fun w => match cb with
                   | GlitchTitle => contentTitle (DOM (this w))
                   | GlitchDescription => contentDescription (DOM (this w))
                   end) in
  match node with
  | None => throw (TypeError "Cannot read properties of null (reading 'classList')")
  | Some q =>
      let! open := gets (fun w => isOpen (this w)) in
      modify (set_this (with_el
        (modify_at (if open then class_add "glitch" else class_remove "glitch") q)))
  end.

(** [this.DOM.cells], which must be an array where it is iterated. *)
Definition get_cells : M (list path) :=
  let! cs := gets (fun w => cells (DOM (this w))) in
  match cs with
  | Some l => ret l
  | None => throw (TypeError "Cannot read properties of null (reading 'forEach')")
  end.

Definition stagger (each : Q) (from : string) (grid : bool) : string * value :=
  ("stagger", VStagger each from (if grid then Some "auto" else None)).

(** [this.tl = this.createDefaultTimeline(...)]. *)
Definition new_tl (duration : Q) (ease : string) : M unit :=
  let! id := createDefaultTimeline duration ease in
  modify (set_this (with_tl (Some id))).

(** [animateEffect1(event)]: one tween per cell, delayed by its distance to
    the pointer. *)
Fixpoint effect1_cells (open : bool) (event : jsevent) (i : nat) (cs : list path)
    : M unit :=
  match cs with
  | [] => ret tt
  | cell :: cs' =>
      (if open then
         tl_add (FromTo [Some cell] [("opacity", VNum 0)]
                   [("opacity", VNum 1); ("delay", VDelay event i)] 0)
       else
         tl_add (To [Some cell]
                   [("opacity", VNum 0); ("delay", VDelay event i)] 0)) >>
      effect1_cells open event (S i) cs'
  end.

Definition animateEffect1 (event : jsevent) : M unit :=
  new_tl default_duration default_ease >>
  match event with
  | Undefined => throw (TypeError "Cannot read properties of undefined (reading 'clientX')")
  | _ => ret tt
  end >>
  let! cs := get_cells in
  let! open := gets (fun w => isOpen (this w)) in
  effect1_cells open event 0%nat cs >>
  animateTooltipContent.

(** The common shape of effects 2 to 6: one [fromTo] on all cells when
    opening, one [to] when closing, then the content.  ([this.DOM.cells] is
    [null] before [#layout] has run; the engine takes [null] as no
    target.) *)
Definition cells_tween (fromVars toVars closeVars : vars) : M unit :=
  let! cs := gets (fun w => cells (DOM (this w))) in
  let targets := match cs with Some l => map Some l | None => [] end in
  let shown := match cs with Some _ => "" | None => "null" end in
  let! open := gets (fun w => isOpen (this w)) in
  (if open then tl_put shown (FromTo targets fromVars toVars 0)
   else tl_put shown (To targets closeVars 0)) >>
  animateTooltipContent.

Definition animateEffect2 : M unit :=
  new_tl default_duration default_ease >>
  cells_tween
    [("opacity", VNum 0); ("scale", VNum 0)]
    [("opacity", VNum 1); ("scale", VNum 1); stagger (2 # 100) "start" false]
    [("opacity", VNum 0); ("scale", VNum 0); stagger (2 # 100) "end" false].

Definition animateEffect3 : M unit :=
  new_tl default_duration default_ease >>
  cells_tween
    [("opacity", VNum 0); ("scale", VNum 0); ("yPercent", VRandom (-200) 200)]
    [("opacity", VNum 1); ("scale", VNum 1); ("yPercent", VNum 0);
     stagger (3 # 100) "center" true]
    [("opacity", VNum 0); ("scale", VNum 0); ("yPercent", VRandom (-200) 200);
     stagger (3 # 100) "center" true].

Definition animateEffect4 : M unit :=
  new_tl default_duration default_ease >>
  cells_tween
    [("opacity", VNum 0); ("scaleX", VNum (8 # 10)); ("xPercent", VRandom (-200) 200)]
    [("opacity", VNum 1); ("scaleX", VNum 1); ("xPercent", VNum 0);
     stagger (2 # 100) "random" true]
    [("opacity", VNum 0); ("scaleX", VNum (8 # 10)); ("xPercent", VRandom (-200) 200);
     stagger (2 # 100) "random" true].

Definition animateEffect5 : M unit :=
  new_tl default_duration default_ease >>
  cells_tween
    [("opacity", VNum 0); ("scale", VNum 0)]
    [("opacity", VNum 1); ("scale", VNum 1); stagger (2 # 100) "center" true]
    [("opacity", VNum 0); ("scale", VNum 0); stagger (2 # 100) "edges" true].

Definition animateEffect6 : M unit :=
  let! b := gets (fun w => bg (DOM (this w))) in
  match b with
  | Some q => modify (set_this (with_el (modify_at (set_style "filter" "url(#gooey)") q)))
  | None => throw (TypeError "Cannot read properties of null (reading 'style')")
  end >>
  new_tl (9 # 10) "expo" >>
  cells_tween
    [("opacity", VNum 0); ("scale", VNum (3 # 10))]
    [("opacity", VNum 1); ("scale", VNum 1); stagger (8 # 100) "random" true]
    [("opacity", VNum 0); ("scale", VNum (3 # 10)); stagger (4 # 100) "random" true].

(** The members of an instance whose name begins with [animate] (a name
    built by [#animateCells] always does); all of them are functions. *)
Inductive method :=
| AnimateTooltipContent
| AnimateEffect1 | AnimateEffect2 | AnimateEffect3
| AnimateEffect4 | AnimateEffect5 | AnimateEffect6.

Definition members : list (string * method) :=
  [("animateTooltipContent", AnimateTooltipContent);
   ("animateEffect1", AnimateEffect1); ("animateEffect2", AnimateEffect2);
   ("animateEffect3", AnimateEffect3); ("animateEffect4", AnimateEffect4);
   ("animateEffect5", AnimateEffect5); ("animateEffect6", AnimateEffect6)].

(** [this[name]] when [typeof this[name] === 'function']. *)
Definition member (name : string) : option method :=
  snd <$> find (fun '(n, _) => String.eqb n name) members.

(** [this[methodName](event)]. *)
Definition call (m : method) (event : jsevent) : M unit :=
  match m with
  | AnimateTooltipContent => animateTooltipContent
  | AnimateEffect1 => animateEffect1 event
  | AnimateEffect2 => animateEffect2
  | AnimateEffect3 => animateEffect3
  | AnimateEffect4 => animateEffect4
  | AnimateEffect5 => animateEffect5
  | AnimateEffect6 => animateEffect6
  end.

(** [`animate${effectType.charAt(0).toUpperCase() + effectType.slice(1)}`]. *)
Definition methodName (effectType : string) : string :=
  "animate" ++ JS.capitalize effectType.

(** [#animateCells(effectType, event)]; [effectType] is [None] when the
    argument is [undefined]. *)
Definition animateCells (effectType : option string) (event : jsevent) : M unit :=
  match effectType with
  | None => throw (TypeError "Cannot read properties of undefined (reading 'charAt')")
  | Some effect =>
      match member (methodName effect) with
      | Some m => call m event
      | None => console_warn ("Animation effect '" ++ effect ++ "' is not defined.")
      end
  end.

(** [toggle(effectType, event)]. *)
Definition toggle (effectType : option string) (event : jsevent) : M unit :=
  modify (set_this (fun t => with_isOpen (negb (isOpen t)) t)) >>
  animateCells effectType event.

(** ** The input dispatcher of [index.js], for one trigger

    The listeners of a trigger whose tooltip element exists.  Timers are
    those of the page; only this trigger's listeners set any, and a timer
    fires when the time it is due has come. *)

Module Index.

(** The two closures handed to [setTimeout]. *)
Inductive task :=
| Show (event : jsevent)
| Hide (event : jsevent).

Record timer := { id : nat; due : Z; job : task }.

(** The calls the listeners make on the tooltip, in order. *)
Inductive invocation :=
| CallUpdatePosition (event : jsevent)
| CallToggle (effectType : option string) (event : jsevent).

Record page := {
  tooltip : world;
  showTimeout : option nat;
  hideTimeout : option nat;
  pending : list timer;        (* timers set and neither fired nor cleared *)
  next_id : nat;
  now : Z;                     (* milliseconds *)
  calls : list invocation;
  uncaught : list error;       (* exceptions that left a listener or a timer *)
}.

Definition P (A : Type) : Type := St page A.

Definition set_tooltip (w : world) (p : page) : page :=
  {| tooltip := w; showTimeout := showTimeout p; hideTimeout := hideTimeout p;
     pending := pending p; next_id := next_id p; now := now p;
     calls := calls p; uncaught := uncaught p |}.

Definition set_showTimeout (h : option nat) (p : page) : page :=
  {| tooltip := tooltip p; showTimeout := h; hideTimeout := hideTimeout p;
     pending := pending p; next_id := next_id p; now := now p;
     calls := calls p; uncaught := uncaught p |}.

Definition set_hideTimeout (h : option nat) (p : page) : page :=
  {| tooltip := tooltip p; showTimeout := showTimeout p; hideTimeout := h;
     pending := pending p; next_id := next_id p; now := now p;
     calls := calls p; uncaught := uncaught p |}.

Definition set_pending (l : list timer) (n : nat) (p : page) : page :=
  {| tooltip := tooltip p; showTimeout := showTimeout p; hideTimeout := hideTimeout p;
     pending := l; next_id := n; now := now p;
     calls := calls p; uncaught := uncaught p |}.

Definition set_now (t : Z) (p : page) : page :=
  {| tooltip := tooltip p; showTimeout := showTimeout p; hideTimeout := hideTimeout p;
     pending := pending p; next_id := next_id p; now := t;
     calls := calls p; uncaught := uncaught p |}.

Definition log_call (c : invocation) (p : page) : page :=
  {| tooltip := tooltip p; showTimeout := showTimeout p; hideTimeout := hideTimeout p;
     pending := pending p; next_id := next_id p; now := now p;
     calls := (calls p ++ [c])%list; uncaught := uncaught p |}.

Definition report (e : error) (p : page) : page :=
  {| tooltip := tooltip p; showTimeout := showTimeout p; hideTimeout := hideTimeout p;
     pending := pending p; next_id := next_id p; now := now p;
     calls := calls p; uncaught := (uncaught p ++ [e])%list |}.

(** A method call on the tooltip, made from a listener. *)
Definition invoke (c : invocation) (m : M unit) : P unit :=
  fun p =>
    let p := log_call c p in
    let '(r, w) := m (tooltip p) in
    (r, set_tooltip w p).

(** [setTimeout(job, delay)] and [clearTimeout(handle)]. *)
Definition setTimeout (j : task) (delay : Z) : P nat :=
  fun p =>
    let i := next_id p in
    (Ok i, set_pending (pending p ++ [ {| id := i; due := now p + delay; job := j |} ])%list
                       (S i) p).

Definition clearTimeout (handle : option nat) : P unit :=
  match handle with
  | None => ret tt
  | Some i =>
      modify (fun p => set_pending (filter (fun t => id t <> i) (pending p)) (next_id p) p)
  end.

Section Trigger.

(** [useTouchEvents], [trigger.dataset.effect] and the browser metrics. *)
Variable useTouchEvents : bool.
Variable effect : option string.
Variable b : browser.

(** [useTouchEvents ? event.touches[0] : event], after the
    [event.preventDefault()] of touch devices. *)
Definition touchEvent_of (event : jsevent) : P jsevent :=
  if useTouchEvents then
    match event with
    | TouchEvent touches =>
        ret (match touches !! 0%nat with Some t => Touch t | None => Undefined end)
    | MouseEvent _ =>
        throw (TypeError "Cannot read properties of undefined (reading '0')")
    | Touch _ => throw (TypeError "event.preventDefault is not a function")
    | Undefined =>
        throw (TypeError "Cannot read properties of undefined (reading 'preventDefault')")
    end
  else ret event.

(** The body of the show timer. *)
Definition show (event : jsevent) : P unit :=
  let! touchEvent := touchEvent_of event in
  let! open := gets (fun p => isOpen (this (tooltip p))) in
  if negb open then
    invoke (CallUpdatePosition touchEvent) (updatePosition b touchEvent) >>
    invoke (CallToggle effect touchEvent) (toggle effect touchEvent)
  else ret tt.

(** The body of the hide timer. *)
Definition hide (event : jsevent) : P unit :=
  let! open := gets (fun p => isOpen (this (tooltip p))) in
  if open then invoke (CallToggle effect event) (toggle effect event)
  else ret tt.

Definition run_task (j : task) : P unit :=
  match j with
  | Show event => show event
  | Hide event => hide event
  end.

(** The three listeners. *)
Definition on_start (event : jsevent) : P unit :=
  let! h := gets hideTimeout in
  clearTimeout h >>
  let! i := setTimeout (Show event) 40 in
  modify (set_showTimeout (Some i)).

Definition on_move (event : jsevent) : P unit :=
  let! touchEvent := touchEvent_of event in
  let! open := gets (fun p => isOpen (this (tooltip p))) in
  if open then invoke (CallUpdatePosition touchEvent) (updatePosition b touchEvent)
  else ret tt.

Definition on_end (event : jsevent) : P unit :=
  let! h := gets showTimeout in
  clearTimeout h >>
  let! i := setTimeout (Hide event) 40 in
  modify (set_hideTimeout (Some i)).

(** One turn of the event loop: run a listener or a timer body; an
    exception that leaves it is reported and the page goes on. *)
Definition turn (m : P unit) (p : page) : page :=
  match m p with
  | (Ok _, p') => p'
  | (Throw e, p') => report e p'
  end.

(** The pending timer to fire next among those due by [limit]: the earliest
    due, the earliest set among equals. *)
Fixpoint next_timer (limit : Z) (l : list timer) : option timer :=
  match l with
  | [] => None
  | t :: l' =>
      match next_timer limit l' with
      | Some t' => if (due t <=? limit) && (due t <=? due t') then Some t else Some t'
      | None => if due t <=? limit then Some t else None
      end
  end.

Fixpoint fire (fuel : nat) (limit : Z) (p : page) : page :=
  match fuel with
  | O => p
  | S fuel' =>
      match next_timer limit (pending p) with
      | None => p
      | Some t =>
          let p := set_pending (filter (fun t' => id t' <> id t) (pending p)) (next_id p) p in
          let p := set_now (due t) p in
          fire fuel' limit (turn (run_task (job t)) p)
      end
  end.

(** What happens to the page. *)
Inductive input :=
| StartEvent (event : jsevent)
| MoveEvent (event : jsevent)
| EndEvent (event : jsevent)
| Elapse (ms : nat).

(** The timer bodies set no timer, so one round per pending timer fires all
    that are due. *)
Definition step (p : page) (i : input) : page :=
  match i with
  | StartEvent event => turn (on_start event) p
  | MoveEvent event => turn (on_move event) p
  | EndEvent event => turn (on_end event) p
  | Elapse ms =>
      let limit := now p + Z.of_nat ms in
      set_now limit (fire (length (pending p)) limit p)
  end.

Definition run (p : page) (l : list input) : page := fold_left step l p.

End Trigger.

(** The page once the script has run: the instance as constructed, no
    timer set. *)
Definition loaded (t : Tooltip) : page :=
  {| tooltip := {| this := t; timelines := []; requests := []; console := [] |};
     showTimeout := None; hideTimeout := None;
     pending := []; next_id := 1; now := 0; calls := []; uncaught := [] |}.

End Index.

(** ** The top level of [index.js]

    The script builds one instance per trigger whose target element exists
    and binds the listeners of those triggers.  An exception of the
    constructor leaves the script, so nothing after it runs.  Each binding
    carries its own copy of the tree of its element; two triggers that name
    the same element share it in a browser, on which no statement below
    depends. *)

Module Script.

(** A trigger: [dataset.tooltip] and [dataset.effect]. *)
Record trigger := {
  dataset_tooltip : option string;
  dataset_effect : option string;
}.

(** [document.getElementById(id)] over the elements that carry an id (a
    [gmap string element], ids being unique); an absent attribute is
    [undefined], which is looked up as the string ["undefined"]. *)
Definition getElementById (doc : gmap string element) (id : option string)
    : option element :=
  doc !! default "undefined" id.

(** The callback of [Array.from(triggers).map(...)]; a constructed instance
    has changed its element in the document. *)
Definition make_tooltip (tr : trigger) : St (gmap string element) (option Tooltip) :=
  fun doc =>
    match getElementById doc (dataset_tooltip tr) with
    | Some tooltipEl =>
        match constructor tooltipEl with
        | Ok t =>
            (Ok (Some t),
             <[default "undefined" (dataset_tooltip tr) := el (DOM t)]> doc)
        | Throw e => (Throw e, doc)
        end
    | None => (Ok None, doc)
    end.

(** [const tooltips = Array.from(triggers).map(...)]. *)
Fixpoint tooltips (triggers : list trigger)
    : St (gmap string element) (list (option Tooltip)) :=
  match triggers with
  | [] => ret []
  | tr :: rest =>
      let! t := make_tooltip tr in
      let! ts := tooltips rest in
      ret (t :: ts)
  end.

(** [triggers.forEach((trigger, index) => ...)]: a trigger without instance
    returns at once; the others get their listeners, which start from the
    page [Index.loaded]. *)
Definition bindings (triggers : list trigger) (ts : list (option Tooltip))
    : list (option (trigger * Index.page)) :=
  zip_with (fun tr t => (fun x => (tr, Index.loaded x)) <$> t) triggers ts.

Definition script (triggers : list trigger)
    : St (gmap string element) (list (option (trigger * Index.page))) :=
  let! ts := tooltips triggers in
  ret (bindings triggers ts).

End Script.

(** ** Sample documents *)

Module Samples.

(** A tooltip element as in the demo page: background block, content block
    with title and description; [ds] is its dataset. *)
Definition tooltip_el (ds : gmap string string) : element :=
  Element "div" ["tooltip"] ds ∅
    [ Element "div" ["tooltip__bg"] ∅ ∅ [];
      Element "div" ["tooltip__content"] ∅ ∅
        [ Element "h4" ["tooltip__content-title"] ∅ ∅ [];
          Element "p" ["tooltip__content-desc"] ∅ ∅ [] ] ].

(** The same without the content block, and without the title. *)
Definition no_content_el : element :=
  Element "div" ["tooltip"] ∅ ∅
    [ Element "div" ["tooltip__bg"] ∅ ∅ [] ].


(** Viewport 1024x768, no scroll, tooltip box 200x100. *)
Definition viewport : browser :=
  {| pageXOffset := 0; pageYOffset := 0;
     documentElement_scrollLeft := 0; documentElement_scrollTop := 0;
     innerWidth := 1024; innerHeight := 768;
     el_offsetWidth := 200; el_offsetHeight := 100 |}.

Definition mouse (x y : Z) : jsevent := MouseEvent {| clientX := x; clientY := y |}.

(** The instance that [new Tooltip] builds from [tooltip_el] with an empty
    dataset: the default 4x4 grid. *)
Definition demo : Tooltip :=
  {| DOM :=
       {| el :=
            Element "div" ["tooltip"] ∅
              (<["--tt-rows" := "4"]> (<["--tt-columns" := "4"]> ∅))
              [ Element "div" ["tooltip__bg"] ∅ ∅ (replicate 16 empty_div);
                Element "div" ["tooltip__content"] ∅ ∅
                  [ Element "h4" ["tooltip__content-title"] ∅ ∅ [];
                    Element "p" ["tooltip__content-desc"] ∅ ∅ [] ] ];
          bg := Some [0%nat];
          content := Some [1%nat];
          contentTitle := Some [1%nat; 0%nat];
          contentDescription := Some [1%nat; 1%nat];
          cells := Some (map (fun i => [0%nat; i]) (seq 0 16)) |};
     rows := 4; cols := 4; isOpen := false; tl := None |}.

End Samples.

(** The world of a freshly constructed instance. *)
Definition initial (t : Tooltip) : world :=
  {| this := t; timelines := []; requests := []; console := [] |}.

(** What can happen to an instance once it exists: the two methods the
    listeners call, and the closures the engine runs. *)
Inductive operation :=
| UpdatePosition (b : browser) (event : jsevent)
| Toggle (effectType : option string) (event : jsevent)
| OnStart
| OnComplete
| Callback (cb : callback).

Definition perform (o : operation) : M unit :=
  match o with
  | UpdatePosition b event => updatePosition b event
  | Toggle effectType event => toggle effectType event
  | OnStart => onStart
  | OnComplete => onComplete
  | Callback cb => run_callback cb
  end.

(** The world after an operation, whether it returned or threw. *)
Definition after (w : world) (o : operation) : world := snd (perform o w).

Definition after_all (w : world) (os : list operation) : world :=
  fold_left after os w.

(** A timeline that was created and not killed. *)
Definition live (t : timeline) : bool := negb (killed t).

(** Every live timeline of the instance is the one in [this.tl]. *)
Definition one_live (w : world) : Prop :=
  forall (i : nat) (t : timeline),
    timelines w !! i = Some t -> live t = true -> tl (this w) = Some i.

(** ** Properties and invariants used in the statements *)

(** The markup of [n] cells. *)
Definition cells_html (n : nat) : string :=
  Nat.iter n (fun s => s ++ "<div></div>") "".

(** [toggle]'s own assignment, [this.isOpen = !this.isOpen]. *)
Definition flip_isOpen (w : world) : world :=
  set_this (fun t => with_isOpen (negb (isOpen t)) t) w.

(** [m] keeps [I]: from a state where [I] holds, the state [m] ends in
    (returning or throwing) satisfies [I]. *)
Definition keeps {S A} (I : S -> Prop) (m : St S A) : Prop :=
  forall s, I s -> I (snd (m s)).

(** A property that reads only fields which no routine assigns: it
    survives any change of the tree of [el], of [tl], of the timelines, of
    the console and of the calls recorded. *)
Definition field_only (I : world -> Prop) : Prop :=
  (forall w f, I w -> I (set_this (with_el f) w))
  /\ (forall w i, I w -> I (set_this (with_tl i) w))
  /\ (forall w f, I w -> I (set_timelines f w))
  /\ (forall w f, I w -> I (set_console f w))
  /\ (forall w r, I w -> I (request_of r w)).



(** [isOpen] has the value [b]. *)
Definition isOpen_is (b : bool) (w : world) : Prop := isOpen (this w) = b.

(** The references, the grid and its dimensions are those of [t]. *)
Definition same_refs (t : Tooltip) (w : world) : Prop :=
  bg (DOM (this w)) = bg (DOM t)
  /\ content (DOM (this w)) = content (DOM t)
  /\ contentTitle (DOM (this w)) = contentTitle (DOM t)
  /\ contentDescription (DOM (this w)) = contentDescription (DOM t)
  /\ cells (DOM (this w)) = cells (DOM t)
  /\ rows (this w) = rows t
  /\ cols (this w) = cols t.

(** [this.tl], when set, is a timeline of the engine, and a live one. *)
Definition current_live (w : world) : Prop :=
  forall i, tl (this w) = Some i ->
    exists t, timelines w !! i = Some t /\ live t = true.

(** The engine's timelines once [this.tl], if any, is killed. *)
Definition kill_current (w : world) : list timeline :=
  match tl (this w) with
  | Some i => alter kill i (timelines w)
  | None => timelines w
  end.

(** The calls on whole timelines by which the current timeline of [w] is
    replaced, in their order: the kill of [this.tl] if there is one, then
    the making of a timeline. *)
Definition replace_requests (w : world) : list request :=
  (match tl (this w) with Some i => [KillTimeline i] | None => [] end
   ++ [NewTimeline (length (timelines w))])%list.

(** [w'] is [w] with its current timeline replaced: the calls made are
    those of [w] followed by the kill and the making, the engine has one
    timeline more, which is live and is [this.tl], and every timeline that
    [w] had is killed. *)
Definition replaced (w w' : world) : Prop :=
  requests w' = (requests w ++ replace_requests w)%list
  /\ length (timelines w') = S (length (timelines w))
  /\ tl (this w') = Some (length (timelines w))
  /\ (forall j x, (j < length (timelines w))%nat ->
                  timelines w' !! j = Some x -> live x = false)
  /\ (exists x, timelines w' !! length (timelines w) = Some x /\ live x = true).

(** The calls on whole timelines, [this.tl] and which timelines are live
    are as in [w]. *)
Definition same_timelines (w w' : world) : Prop :=
  requests w' = requests w
  /\ tl (this w') = tl (this w)
  /\ live <$> timelines w' = live <$> timelines w.

(** ** Definitions for the further properties *)

(** The three entries that [animateTooltipContent] puts on a timeline: the
    opacity tween of title and description and the two glitch callbacks,
    at positions that depend on the direction. *)
Definition content_children (open : bool) (title desc : option path) : list child :=
  [ FromTo [title; desc]
      [("opacity", VNum (if open then 0 else 1))]
      [("duration", VNum (2 # 10));
       ("opacity", VNum (if open then 1 else 0));
       ("stagger", VNum (if open then 2 # 10 else 0))]
      (if open then 4 # 10 else 0);
    Add GlitchTitle (if open then 8 # 10 else 0);
    Add GlitchDescription (if open then 1 else 0) ].

(** The defaults that an effect routine gives to its timeline. *)
Definition effect_duration (m : method) : Q :=
  match m with
  | AnimateEffect6 => 9 # 10
  | _ => 1 # 10
  end.

(** The number of tweens that an effect routine puts on the cells: one per
    cell for effect 1, one for all cells otherwise. *)
Definition cell_tweens (m : method) (cells : list path) : nat :=
  match m with
  | AnimateEffect1 => length cells
  | _ => 1%nat
  end.

(** The targets of those tweens, tween by tween: each cell in turn for
    effect 1, the array of all cells otherwise. *)
Definition cell_targets (m : method) (cells : list path) : list (list (option path)) :=
  match m with
  | AnimateEffect1 => (fun cell => [Some cell]) <$> cells
  | _ => [Some <$> cells]
  end.

(** A tween as the effects put on the cells: a [fromTo] when the tooltip
    opens, a [to] when it closes, at position 0 of the timeline. *)
Definition cell_tween (open : bool) (c : child) : Prop :=
  match c with
  | FromTo _ _ _ pos => open = true /\ pos = 0%Q
  | To _ _ pos => open = false /\ pos = 0%Q
  | Add _ _ => False
  end.

(** A child that the engine takes without a warning or an exception: a
    callback, or a tween whose first target is a node. *)
Definition accepted (c : child) : bool :=
  match targets_of c with
  | None | Some (Some _ :: _) => true
  | Some _ => false
  end.

(** The tree of [el] after an effect routine: effect 6 sets the filter of
    the background block. *)
Definition effect_el (m : method) (bg : path) (e : element) : element :=
  match m with
  | AnimateEffect6 => modify_at (set_style "filter" "url(#gooey)") bg e
  | _ => e
  end.

(** What the world is after one of the six effect routines has returned. *)
Definition effect_result (m : method) (q : path) (cs : list path) (w w' : world) : Prop :=
  exists part,
    targets_of <$> part = Some <$> cell_targets m cs
    /\ Forall (cell_tween (isOpen (this w))) part
    /\ timelines w'
       = (kill_current w
          ++ [ {| duration := effect_duration m; ease := "expo"; killed := false;
                  children :=
                    (part ++ content_children (isOpen (this w))
                                              (contentTitle (DOM (this w)))
                                              (contentDescription (DOM (this w))))%list |} ])%list
    /\ tl (this w') = Some (length (timelines w))
    /\ isOpen (this w') = isOpen (this w)
    /\ el (DOM (this w')) = effect_el m q (el (DOM (this w)))
    /\ console w' = console w
    /\ requests w' = (requests w ++ replace_requests w)%list
    /\ same_refs (this w) w'.

(** The effect names that [#animateCells] resolves to a method, with the
    method: the six effects and the content animation, each with its first
    letter in either case. *)
Definition effect_names : list (string * method) :=
  [("effect1", AnimateEffect1); ("Effect1", AnimateEffect1);
   ("effect2", AnimateEffect2); ("Effect2", AnimateEffect2);
   ("effect3", AnimateEffect3); ("Effect3", AnimateEffect3);
   ("effect4", AnimateEffect4); ("Effect4", AnimateEffect4);
   ("effect5", AnimateEffect5); ("Effect5", AnimateEffect5);
   ("effect6", AnimateEffect6); ("Effect6", AnimateEffect6);
   ("tooltipContent", AnimateTooltipContent);
   ("TooltipContent", AnimateTooltipContent)].

(** [t'] is [t] later on: same defaults, the children of [t] and perhaps
    more after them, killed if [t] was. *)
Definition grown (t t' : timeline) : Prop :=
  duration t' = duration t
  /\ ease t' = ease t
  /\ (killed t = true -> killed t' = true)
  /\ exists more, children t' = (children t ++ more)%list.

(** The timelines [l] are all still there, each grown. *)
Definition timelines_grown (l : list timeline) (w : world) : Prop :=
  forall j t, l !! j = Some t ->
    exists t', timelines w !! j = Some t' /\ grown t t'.

(** The event object that the show timer and the move listener work with
    ([touchEvent]), for an event of the kind the device sends: the event
    itself on a mouse device, its first touch point on a touch device. *)
Definition delivered (useTouchEvents : bool) (event : jsevent) : option jsevent :=
  if useTouchEvents then
    match event with
    | TouchEvent (t :: _) => Some (Touch t)
    | _ => None
    end
  else
    match event with
    | MouseEvent _ => Some event
    | _ => None
    end.

(** What a mouse device sends: mouse events, and time passing. *)
Definition mouse_input (i : Index.input) : Prop :=
  match i with
  | Index.StartEvent (MouseEvent _)
  | Index.MoveEvent (MouseEvent _)
  | Index.EndEvent (MouseEvent _)
  | Index.Elapse _ => True
  | _ => False
  end.

Definition mouse_task (j : Index.task) : Prop :=
  match j with
  | Index.Show (MouseEvent _) | Index.Hide (MouseEvent _) => True
  | _ => False
  end.

(** A page is sound for the instance [t]: nothing was thrown or warned,
    the instance has the references of [t], and the pending timers carry
    mouse events. *)
Definition sound (t : Tooltip) (p : Index.page) : Prop :=
  Index.uncaught p = []
  /\ console (Index.tooltip p) = []
  /\ same_refs t (Index.tooltip p)
  /\ Forall (fun tm => mouse_task (Index.job tm)) (Index.pending p).

(** ** Further samples *)

Module MoreSamples.

(** The viewport of [Samples.viewport], scrolled by (120, 300). *)
Definition scrolled : browser :=
  {| pageXOffset := 120; pageYOffset := 300;
     documentElement_scrollLeft := 120; documentElement_scrollTop := 300;
     innerWidth := 1024; innerHeight := 768;
     el_offsetWidth := 200; el_offsetHeight := 100 |}.

(** A page with one well-formed tooltip element and one without content
    block, and triggers for them and for an id that does not exist. *)
Definition good : Script.trigger :=
  {| Script.dataset_tooltip := Some "tip"; Script.dataset_effect := Some "effect1" |}.

Definition dangling : Script.trigger :=
  {| Script.dataset_tooltip := Some "nowhere"; Script.dataset_effect := Some "effect2" |}.

Definition broken : Script.trigger :=
  {| Script.dataset_tooltip := Some "bad"; Script.dataset_effect := Some "effect3" |}.

Definition document : gmap string element :=
  <["tip" := Samples.tooltip_el ∅]> {["bad" := Samples.no_content_el]}.

End MoreSamples.

(** * Position clamping *)

Section Position.

Variable b : browser.

Hypothesis no_scroll_x : pageXOffset b = 0 /\ documentElement_scrollLeft b = 0.
Hypothesis no_scroll_y : pageYOffset b = 0 /\ documentElement_scrollTop b = 0.

Lemma scroll_zero :
  JS.or (JS.Num (pageXOffset b)) (documentElement_scrollLeft b) = 0
  /\ JS.or (JS.Num (pageYOffset b)) (documentElement_scrollTop b) = 0.
Proof.
  destruct no_scroll_x as [-> ->], no_scroll_y as [-> ->]. split; reflexivity.
Qed.

(** One axis of the computation, with zero scroll. *)
Lemma clamp_axis (c size extent : Z) :
  0 <= c <= extent ->
  exists r,
    (let p := JS.add (JS.Num c) 0 in
     let p := if JS.gt (JS.add (JS.Num c) size) extent
              then JS.add (JS.sub (JS.Num c) size) 0 else p in
     if JS.lt p 0 then JS.Num 0 else p) = JS.Num r
    /\ 0 <= r <= Z.max 0 (extent - size).
Proof.
  intros Hc. cbn [JS.add JS.sub JS.gt JS.lt].
  destruct (Z.ltb_spec extent (c + size)) as [Hover | Hfit]; cbn [JS.lt].
  - destruct (Z.ltb_spec (c - size + 0) 0) as [Hneg | Hpos].
    + exists 0. split; [reflexivity | lia].
    + exists (c - size + 0). split; [reflexivity | lia].
  - destruct (Z.ltb_spec (c + 0) 0) as [Hneg | Hpos].
    + exists 0. split; [reflexivity | lia].
    + exists (c + 0). split; [reflexivity | lia].
Qed.

(** C1. With zero scroll, a pointer inside the viewport ([0 <= x <= W],
    [0 <= y <= H]) and any tooltip size [(w, h)], the position computed by
    [calculateTooltipPosition] has [left] in [[0, max(0, W - w)]] and [top]
    in [[0, max(0, H - h)]]. *)
Theorem calculateTooltipPosition_in_viewport (event : jsevent) (x y : Z) :
  event_clientX event = JS.Num x ->
  event_clientY event = JS.Num y ->
  0 <= x <= innerWidth b ->
  0 <= y <= innerHeight b ->
  exists l t,
    calculateTooltipPosition b event = Ok {| left := JS.Num l; top := JS.Num t |}
    /\ 0 <= l <= Z.max 0 (innerWidth b - el_offsetWidth b)
    /\ 0 <= t <= Z.max 0 (innerHeight b - el_offsetHeight b).
Proof.
  intros Hx Hy Hxin Hyin.
  destruct (clamp_axis x (el_offsetWidth b) (innerWidth b) Hxin) as (l & Hl & Hlb).
  destruct (clamp_axis y (el_offsetHeight b) (innerHeight b) Hyin) as (t & Ht & Htb).
  exists l, t. split; [ | split; assumption ].
  destruct scroll_zero as [Hsl Hst].
  unfold calculateTooltipPosition.
  destruct event; try discriminate Hx; rewrite Hx, Hy, Hsl, Hst;
    cbv zeta in Hl, Ht; cbv zeta; rewrite Hl, Ht; reflexivity.
Qed.

End Position.

Lemma calculateTooltipPosition_in_viewport_witness :
  exists l t,
    calculateTooltipPosition Samples.viewport (Samples.mouse 1000 10)
    = Ok {| left := JS.Num l; top := JS.Num t |}
    /\ 0 <= l <= Z.max 0 (1024 - 200)
    /\ 0 <= t <= Z.max 0 (768 - 100).
Proof.
  apply (calculateTooltipPosition_in_viewport Samples.viewport
           (conj eq_refl eq_refl) (conj eq_refl eq_refl)
           (Samples.mouse 1000 10) 1000 10);
    [ reflexivity | reflexivity | simpl; lia | simpl; lia ].
Defined.

(** The scenario of the specification does not give the position it names:
    the computed position is not [(824, 668)]. *)
Lemma scenario_position_is_not_824_668 :
  calculateTooltipPosition Samples.viewport (Samples.mouse 900 700)
  <> Ok {| left := JS.Num 824; top := JS.Num 668 |}.
Proof. vm_compute. discriminate. Qed.

(** C2 (amended). With viewport 1024x768, zero scroll, tooltip size 200x100
    and the pointer at (900, 700), [calculateTooltipPosition] returns
    left = 700 and top = 600: both axes overflow and flip to pointer minus
    size, and nothing is left to clamp. *)
Theorem scenario_position_is_700_600 :
  calculateTooltipPosition Samples.viewport (Samples.mouse 900 700)
  = Ok {| left := JS.Num 700; top := JS.Num 600 |}.
Proof. reflexivity. Qed.

(** * Reasoning about methods *)

Section Keeps.

Context {S : Type} (I : S -> Prop).

Lemma keeps_ret {A} (a : A) : keeps I (ret a).
Proof. intros s H. exact H. Qed.

Lemma keeps_throw {A} (e : error) : keeps I (throw (A := A) e).
Proof. intros s H. exact H. Qed.

Lemma keeps_gets {A} (f : S -> A) : keeps I (gets f).
Proof. intros s H. exact H. Qed.

Lemma keeps_lift {A} (r : result A) : keeps I (lift r).
Proof. intros s H. exact H. Qed.

Lemma keeps_modify (f : S -> S) :
  (forall s, I s -> I (f s)) -> keeps I (modify f).
Proof. intros Hf s H. apply Hf, H. Qed.

Lemma keeps_bind {A B} (m : St S A) (k : A -> St S B) :
  keeps I m -> (forall a, keeps I (k a)) -> keeps I (bind m k).
Proof.
  intros Hm Hk s H. unfold bind.
  specialize (Hm s H). destruct (m s) as [[a | e] s']; cbn in *.
  - apply Hk, Hm.
  - exact Hm.
Qed.

End Keeps.

(** One syntax-directed step of a [keeps] proof. *)
Ltac keeps_step :=
  lazymatch goal with
  | |- keeps _ (bind _ _) => apply keeps_bind; [ | intros ? ]
  | |- keeps _ (ret _) => apply keeps_ret
  | |- keeps _ (throw _) => apply keeps_throw
  | |- keeps _ (gets _) => apply keeps_gets
  | |- keeps _ (lift _) => apply keeps_lift
  | |- keeps _ (modify _) => apply keeps_modify; intros ? ?
  | |- keeps _ (match ?x with _ => _ end) => destruct x
  end.


(** * Invariants of the animation routines *)

(** A property of the world survives the animation routines when it
    survives what they do: change the tree of [el] and the console, put
    children on the current timeline, replace the current timeline. *)
Section Routines.

Variable I : world -> Prop.
Hypothesis inv_el : forall w f, I w -> I (set_this (with_el f) w).
Hypothesis inv_console : forall w f, I w -> I (set_console f w).
Hypothesis inv_tl_add : forall shown c, keeps I (tl_put shown c).
Hypothesis inv_new_tl : forall d e, keeps I (new_tl d e).

Lemma keeps_console_warn msg : keeps I (console_warn msg).
Proof. unfold console_warn. keeps_step. apply inv_console. assumption. Qed.

Lemma keeps_check_targets shown targets : keeps I (check_targets shown targets).
Proof.
  destruct targets as [ | [q | ] rest ]; cbn [check_targets];
    [ apply keeps_console_warn | apply keeps_ret | apply keeps_throw ].
Qed.

(** [tl_put] keeps what survives the console and a child put on the
    current timeline. *)
Lemma keeps_tl_add_of shown c :
  (forall w i, tl (this w) = Some i -> I w ->
               I (set_timelines (alter (add_child c) i) w)) ->
  keeps I (tl_put shown c).
Proof.
  intros Hadd w H. unfold tl_put, bind, gets. cbn.
  destruct (tl (this w)) as [i | ] eqn:Htl; [ | exact H ].
  destruct (targets_of c) as [[ | [q | ] rest] | ]; cbn.
  - apply Hadd; [ exact Htl | apply inv_console, H ].
  - apply Hadd; assumption.
  - exact H.
  - apply Hadd; assumption.
Qed.

Lemma keeps_animateTooltipContent : keeps I animateTooltipContent.
Proof. unfold animateTooltipContent, tl_add. repeat keeps_step; apply inv_tl_add. Qed.

Lemma keeps_effect1_cells open event cs :
  forall i, keeps I (effect1_cells open event i cs).
Proof.
  induction cs as [ | cell cs IH ]; intros i; cbn [effect1_cells].
  - apply keeps_ret.
  - apply keeps_bind; [ destruct open; apply inv_tl_add | intros _; apply IH ].
Qed.

Lemma keeps_cells_tween f t c : keeps I (cells_tween f t c).
Proof.
  unfold cells_tween. repeat keeps_step;
    first [ apply inv_tl_add | apply keeps_animateTooltipContent ].
Qed.

(** What [animateEffect1] does once it has its new timeline. *)
Lemma keeps_effect1_rest event :
  keeps I (match event with
           | Undefined =>
               throw (TypeError "Cannot read properties of undefined (reading 'clientX')")
           | _ => ret tt
           end >>
           let! cs := get_cells in
           let! open := gets (fun w => isOpen (this w)) in
           effect1_cells open event 0%nat cs >>
           animateTooltipContent).
Proof.
  unfold get_cells.
  repeat first [ apply keeps_animateTooltipContent | apply keeps_effect1_cells
               | keeps_step ].
Qed.

Lemma keeps_call m event : keeps I (call m event).
Proof.
  destruct m; cbn [call];
    unfold animateEffect1, animateEffect2, animateEffect3, animateEffect4,
           animateEffect5, animateEffect6;
    repeat first
      [ apply keeps_animateTooltipContent | apply inv_new_tl
      | apply keeps_cells_tween | apply keeps_effect1_rest
      | keeps_step ];
    try (apply inv_el; assumption).
Qed.

Lemma keeps_animateCells effectType event : keeps I (animateCells effectType event).
Proof.
  unfold animateCells. destruct effectType as [effect | ].
  - destruct (member (methodName effect)); [ apply keeps_call | apply keeps_console_warn ].
  - apply keeps_throw.
Qed.

Lemma keeps_updatePosition b event : keeps I (updatePosition b event).
Proof. unfold updatePosition. repeat keeps_step; apply inv_el; assumption. Qed.

Lemma keeps_onStart : keeps I onStart.
Proof. unfold onStart. repeat keeps_step; apply inv_el; assumption. Qed.

Lemma keeps_onComplete : keeps I onComplete.
Proof. unfold onComplete. repeat keeps_step; apply inv_el; assumption. Qed.

Lemma keeps_run_callback cb : keeps I (run_callback cb).
Proof. unfold run_callback. repeat keeps_step; apply inv_el; assumption. Qed.

(** With [toggle]'s flip of [isOpen] as well, the property holds along
    every sequence of operations. *)
Hypothesis inv_flip : forall w, I w -> I (flip_isOpen w).

Lemma keeps_toggle effectType event : keeps I (toggle effectType event).
Proof.
  unfold toggle. apply keeps_bind.
  - apply keeps_modify. exact inv_flip.
  - intros _. apply keeps_animateCells.
Qed.

Lemma keeps_perform o : keeps I (perform o).
Proof.
  destruct o; cbn [perform];
    auto using keeps_updatePosition, keeps_toggle, keeps_onStart,
               keeps_onComplete, keeps_run_callback.
Qed.

Lemma after_all_invariant os : forall w, I w -> I (after_all w os).
Proof.
  induction os as [ | o os IH ]; intros w H; cbn.
  - exact H.
  - apply IH. apply keeps_perform. exact H.
Qed.

End Routines.

Section FieldOnly.

Variable I : world -> Prop.
Hypothesis fo : field_only I.

Lemma field_only_tl_add shown c : keeps I (tl_put shown c).
Proof.
  destruct fo as (_ & _ & Htls & Hco & _).
  apply keeps_tl_add_of; [ exact Hco | ].
  intros w i _ H. apply Htls, H.
Qed.

Lemma field_only_new_tl d e : keeps I (new_tl d e).
Proof.
  destruct fo as (_ & Htl & Htls & _ & Hreq).
  unfold new_tl, createDefaultTimeline.
  repeat keeps_step; first [ apply Htls | apply Htl | apply Hreq ]; assumption.
Qed.

Lemma field_only_animateCells effectType event :
  keeps I (animateCells effectType event).
Proof.
  apply keeps_animateCells;
    [ apply fo | apply fo | apply field_only_tl_add | apply field_only_new_tl ].
Qed.

Lemma field_only_after_all os w :
  (forall w, I w -> I (flip_isOpen w)) -> I w -> I (after_all w os).
Proof.
  intros Hflip. apply after_all_invariant;
    [ apply fo | apply fo | apply field_only_tl_add | apply field_only_new_tl
    | exact Hflip ].
Qed.

End FieldOnly.

(** * Toggle *)

Lemma isOpen_is_field_only b : field_only (isOpen_is b).
Proof. split; [ | split; [ | split; [ | split ] ] ]; intros w f H; exact H. Qed.

(** [toggle] negates [isOpen], however the animation routine ends. *)
Lemma toggle_isOpen (effectType : option string) (event : jsevent) (w : world) :
  isOpen (this (snd (toggle effectType event w))) = negb (isOpen (this w)).
Proof.
  unfold toggle, bind, modify.
  assert (H : keeps (isOpen_is (negb (isOpen (this w))))
                    (animateCells effectType event))
    by apply field_only_animateCells, isOpen_is_field_only.
  specialize (H (flip_isOpen w) eq_refl). unfold flip_isOpen in H.
  destruct (animateCells effectType event _) as [[[] | e] w']; exact H.
Qed.

(** C8. Two calls of [toggle] in succession bring [isOpen] back to the value
    it had, for every instance, every starting value, every effect name and
    event, and whether or not a call throws. *)
Theorem toggle_twice_restores_isOpen
    (w : world) (effect1 effect2 : option string) (event1 event2 : jsevent) :
  isOpen (this (snd (toggle effect2 event2 (snd (toggle effect1 event1 w)))))
  = isOpen (this w).
Proof. rewrite !toggle_isOpen. apply negb_involutive. Qed.

(** C4. For an effect name for which the instance has no animation routine
    ([this[methodName]] is not a function), [toggle] returns normally, flips
    [isOpen], writes exactly one warning to the console, and changes nothing
    else: no timeline is created, and [this.tl] and every field of
    [this.DOM] (the tree of [el] with its styles and classes included) are
    as before. *)
Theorem toggle_unknown_effect (w : world) (effect : string) (event : jsevent) :
  member (methodName effect) = None ->
  toggle (Some effect) event w
  = (Ok tt,
     {| this := with_isOpen (negb (isOpen (this w))) (this w);
        timelines := timelines w;
        requests := requests w;
        console := (console w
                    ++ [("Animation effect '" ++ effect ++ "' is not defined.")%string])%list |}).
Proof.
  intros Hnone. unfold toggle, animateCells, bind, modify.
  rewrite Hnone. reflexivity.
Qed.

Lemma toggle_unknown_effect_witness :
  toggle (Some "glow") (Samples.mouse 10 10) (initial Samples.demo)
  = (Ok tt,
     {| this := with_isOpen true Samples.demo;
        timelines := [];
        requests := [];
        console := ["Animation effect 'glow' is not defined."] |}).
Proof.
  exact (toggle_unknown_effect (initial Samples.demo) "glow" (Samples.mouse 10 10) eq_refl).
Defined.

(** C10. Called with an effect name that is [undefined], [toggle] flips
    [isOpen] and then throws a TypeError at the capitalisation of the name;
    the warning branch is not reached: the console, the timelines and the
    rest of the instance are as before. *)
Theorem toggle_undefined_effect_throws (w : world) (event : jsevent) :
  toggle None event w
  = (Throw (TypeError "Cannot read properties of undefined (reading 'charAt')"),
     {| this := with_isOpen (negb (isOpen (this w))) (this w);
        timelines := timelines w;
        requests := requests w;
        console := console w |}).
Proof. reflexivity. Qed.

(** * Timelines *)

Lemma live_kill t : live (kill t) = false.
Proof. reflexivity. Qed.

Lemma live_add_child c t : live (add_child c t) = live t.
Proof. reflexivity. Qed.

(** A live entry of an altered list was live before, at the same place,
    when the alteration does not revive. *)
Lemma lookup_alter_live (f : timeline -> timeline) (l : list timeline) (i j : nat) t :
  (forall x, live (f x) = true -> live x = true) ->
  alter f i l !! j = Some t -> live t = true ->
  exists t0, l !! j = Some t0 /\ live t0 = true /\ (i = j -> t = f t0).
Proof.
  intros Hf Hj Hlive. destruct (decide (i = j)) as [-> | Hne].
  - rewrite list_lookup_alter_eq in Hj.
    destruct (l !! j) as [t0 | ]; cbn in Hj; [ | discriminate ].
    injection Hj as <-. exists t0.
    split; [ reflexivity | split; [ apply Hf, Hlive | reflexivity ] ].
  - rewrite list_lookup_alter_ne in Hj by exact Hne.
    exists t. split; [ exact Hj | split; [ exact Hlive | congruence ] ].
Qed.

Lemma one_live_add_child c i w :
  one_live w -> one_live (set_timelines (alter (add_child c) i) w).
Proof.
  intros H j t Hj Hlive. cbn in *.
  destruct (lookup_alter_live (add_child c) (timelines w) i j t) as (t0 & H0 & Hl0 & _);
    [ intros x; rewrite live_add_child; auto | exact Hj | exact Hlive | ].
  apply (H j t0); assumption.
Qed.

Lemma one_live_tl_add shown c : keeps one_live (tl_put shown c).
Proof.
  apply keeps_tl_add_of; [ intros w f H; exact H | ].
  intros w i _ H. apply one_live_add_child, H.
Qed.

(** Whether a timeline is live does not change when a child is put on one
    of them. *)
Lemma fmap_live_add_child c (l : list timeline) :
  forall i, live <$> alter (add_child c) i l = live <$> l.
Proof.
  induction l as [ | t l IH ]; intros [ | i ]; cbn; try reflexivity.
  f_equal. apply IH.
Qed.

Lemma lookup_fmap_live (l l' : list timeline) j x :
  live <$> l' = live <$> l -> l' !! j = Some x ->
  exists x0, l !! j = Some x0 /\ live x0 = live x.
Proof.
  intros Heq Hj.
  assert (H : (live <$> l) !! j = Some (live x))
    by (rewrite <- Heq, list_lookup_fmap, Hj; reflexivity).
  rewrite list_lookup_fmap in H.
  destruct (l !! j) as [x0 | ]; cbn in H; [ | discriminate ].
  injection H as H. eauto.
Qed.

Lemma same_timelines_tl_add w shown c : keeps (same_timelines w) (tl_put shown c).
Proof.
  apply keeps_tl_add_of; [ intros w0 f H; exact H | ].
  intros w0 i _ (Hreq & Htl & Hlive).
  split; [ exact Hreq | split; [ exact Htl | ] ].
  cbn. rewrite fmap_live_add_child. exact Hlive.
Qed.

(** [this.tl = this.createDefaultTimeline(...)] returns: [this.tl], if any,
    is killed, then a timeline is made, which becomes [this.tl]. *)
Lemma new_tl_run d e w :
  new_tl d e w
  = (Ok tt,
     {| this := with_tl (Some (length (timelines w))) (this w);
        timelines := (kill_current w
                      ++ [ {| duration := d; ease := e; killed := false;
                              children := [] |} ])%list;
        requests := (requests w ++ replace_requests w)%list;
        console := console w |}).
Proof.
  unfold new_tl, createDefaultTimeline, kill_current, replace_requests,
         bind, gets, modify.
  cbn. destruct (tl (this w)) as [i | ]; cbn.
  - rewrite length_alter. unfold set_this, set_timelines, request_of. cbn.
    rewrite <- app_assoc. reflexivity.
  - reflexivity.
Qed.

(** The timelines that existed are all killed once [this.tl] is, when it
    was the only one live. *)
Lemma kill_current_dead w j x :
  one_live w -> kill_current w !! j = Some x -> live x = false.
Proof.
  intros H Hj. unfold kill_current in Hj.
  destruct (live x) eqn:Hlive; [ exfalso | reflexivity ].
  destruct (tl (this w)) as [i | ] eqn:Htl.
  - destruct (lookup_alter_live kill (timelines w) i j x) as (t0 & H0 & Hl0 & Heq);
      [ intros y; rewrite live_kill; discriminate | exact Hj | exact Hlive | ].
    assert (i = j) as Hij by (specialize (H j t0 H0 Hl0); congruence).
    rewrite (Heq Hij), live_kill in Hlive. discriminate.
  - specialize (H j x Hj Hlive). congruence.
Qed.

Lemma length_kill_current w : length (kill_current w) = length (timelines w).
Proof. unfold kill_current. destruct (tl (this w)); [ apply length_alter | reflexivity ]. Qed.

Lemma replaced_new_tl d e w : one_live w -> replaced w (snd (new_tl d e w)).
Proof.
  intros H. rewrite new_tl_run. cbn [snd].
  split; [ reflexivity | ]. cbn.
  split; [ rewrite length_app, length_kill_current; cbn; lia | ].
  split; [ reflexivity | ].
  split.
  - intros j x Hlt Hj.
    rewrite lookup_app_l in Hj by (rewrite length_kill_current; exact Hlt).
    exact (kill_current_dead w j x H Hj).
  - eexists. split.
    + rewrite lookup_app_r by (rewrite length_kill_current; lia).
      rewrite length_kill_current, Nat.sub_diag. reflexivity.
    + reflexivity.
Qed.

Lemma replaced_tl_add w shown c : keeps (replaced w) (tl_put shown c).
Proof.
  apply keeps_tl_add_of; [ intros w0 f H; exact H | ].
  intros w0 i _ (Hreq & Hlen & Htl & Hdead & (y & Hy & Hlive)).
  split; [ exact Hreq | ]. cbn.
  split; [ rewrite length_alter; exact Hlen | ].
  split; [ exact Htl | ].
  assert (Hsame : live <$> alter (add_child c) i (timelines w0) = live <$> timelines w0)
    by apply fmap_live_add_child.
  split.
  - intros j x Hlt Hj.
    destruct (lookup_fmap_live _ _ j x Hsame Hj) as (x0 & H0 & <-).
    exact (Hdead j x0 Hlt H0).
  - destruct (lookup_lt_is_Some_2 (alter (add_child c) i (timelines w0))
                                  (length (timelines w))) as [x Hx];
      [ rewrite length_alter; lia | ].
    exists x. split; [ exact Hx | ].
    destruct (lookup_fmap_live _ _ _ x Hsame Hx) as (x0 & H0 & <-).
    congruence.
Qed.

Lemma one_live_new_tl d e : keeps one_live (new_tl d e).
Proof.
  intros w H. destruct (replaced_new_tl d e w H) as (_ & Hlen & Htl & Hold & _).
  intros j t Hj Hlive. rewrite Htl. f_equal.
  destruct (Nat.lt_ge_cases j (length (timelines w))) as [Hlt | Hge].
  - rewrite (Hold j t Hlt Hj) in Hlive. discriminate.
  - apply lookup_lt_Some in Hj. lia.
Qed.

Lemma current_live_tl_add shown c : keeps current_live (tl_put shown c).
Proof.
  apply keeps_tl_add_of; [ intros w f H; exact H | ].
  intros w i _ H k Hk. cbn in *.
  destruct (H k Hk) as (t & Ht & Hlive).
  destruct (lookup_lt_is_Some_2 (alter (add_child c) i (timelines w)) k) as [x Hx];
    [ rewrite length_alter; apply lookup_lt_Some in Ht; exact Ht | ].
  exists x. split; [ exact Hx | ].
  destruct (lookup_fmap_live (timelines w) _ k x (fmap_live_add_child c _ i) Hx)
    as (x0 & H0 & <-).
  congruence.
Qed.

Lemma current_live_new_tl d e : keeps (fun w => one_live w /\ current_live w) (new_tl d e).
Proof.
  intros w (Hone & _). split; [ apply one_live_new_tl, Hone | ].
  destruct (replaced_new_tl d e w Hone) as (_ & _ & Htl & _ & Hnew).
  intros k Hk. rewrite Htl in Hk. injection Hk as <-. exact Hnew.
Qed.

Lemma one_live_initial t : tl t = None -> one_live (initial t).
Proof. intros _ i x Hi. discriminate. Qed.

Lemma constructor_tl DOM_el t : constructor DOM_el = Ok t -> tl t = None /\ isOpen t = false.
Proof.
  unfold constructor. destruct (querySelector _ _ _); [ | discriminate ].
  destruct (layout _ _ _ _) as [[el' cs] | e]; [ | discriminate ].
  intros [= <-]. split; reflexivity.
Qed.

Lemma same_refs_field_only t : field_only (same_refs t).
Proof. split; [ | split; [ | split; [ | split ] ] ]; intros w f H; exact H. Qed.

(** No operation assigns a reference, the cell array or the dimensions. *)
Lemma same_refs_after_all t os : same_refs t (after_all (initial t) os).
Proof.
  apply field_only_after_all.
  - apply same_refs_field_only.
  - intros w H. exact H.
  - repeat split.
Qed.

(** At most one timeline is live, and [this.tl] is live, in every state an
    instance reaches. *)
Lemma one_live_after_all t os :
  tl t = None ->
  one_live (after_all (initial t) os) /\ current_live (after_all (initial t) os).
Proof.
  intros Htl.
  apply (after_all_invariant (fun w => one_live w /\ current_live w)).
  - intros w f H. exact H.
  - intros w f H. exact H.
  - intros shown c w (Hone & Hcur).
    split; [ apply one_live_tl_add, Hone | apply current_live_tl_add, Hcur ].
  - apply current_live_new_tl.
  - intros w H. exact H.
  - split; [ apply one_live_initial, Htl | ].
    intros i Hi. cbn in Hi. congruence.
Qed.

Lemma snd_bind_ok {S A B} (m : St S A) (k : A -> St S B) s a s' :
  m s = (Ok a, s') -> snd (bind m k s) = snd (k a s').
Proof. intros H. unfold bind. rewrite H. reflexivity. Qed.

(** Each of the six effect routines replaces the current timeline (on an
    instance that has its background block), however it ends. *)
Lemma call_effect_replaced m event w :
  m <> AnimateTooltipContent ->
  is_Some (bg (DOM (this w))) ->
  one_live w ->
  replaced w (snd (call m event w)).
Proof.
  intros Hm [q Hbg] Hone.
  assert (Htw : forall f t c w0, replaced w w0 -> replaced w (snd (cells_tween f t c w0))).
  { intros f t c. apply keeps_cells_tween. apply replaced_tl_add. }
  assert (Hr : forall d e, replaced w (snd (new_tl d e w)))
    by (intros d e; apply replaced_new_tl, Hone).
  setoid_rewrite new_tl_run in Hr. cbn [snd] in Hr.
  destruct m; try congruence; cbn [call].
  - unfold animateEffect1.
    rewrite (snd_bind_ok _ _ _ _ _ (new_tl_run _ _ w)).
    apply keeps_effect1_rest; [ apply replaced_tl_add | apply Hr ].
  - unfold animateEffect2.
    rewrite (snd_bind_ok _ _ _ _ _ (new_tl_run _ _ w)). apply Htw, Hr.
  - unfold animateEffect3.
    rewrite (snd_bind_ok _ _ _ _ _ (new_tl_run _ _ w)). apply Htw, Hr.
  - unfold animateEffect4.
    rewrite (snd_bind_ok _ _ _ _ _ (new_tl_run _ _ w)). apply Htw, Hr.
  - unfold animateEffect5.
    rewrite (snd_bind_ok _ _ _ _ _ (new_tl_run _ _ w)). apply Htw, Hr.
  - unfold animateEffect6.
    set (w0 := set_this (with_el (modify_at (set_style "filter" "url(#gooey)") q)) w).
    rewrite (snd_bind_ok _ _ w (Some q) w) by (unfold gets; rewrite Hbg; reflexivity).
    rewrite (snd_bind_ok _ _ w tt w0) by reflexivity.
    rewrite (snd_bind_ok _ _ _ _ _ (new_tl_run _ _ w0)).
    apply Htw.
    pose proof (replaced_new_tl (9 # 10) "expo" w0 Hone) as Hr6.
    rewrite new_tl_run in Hr6. exact Hr6.
Qed.

(** An instance that was constructed has its background block. *)
Lemma constructor_bg DOM_el t : constructor DOM_el = Ok t -> is_Some (bg (DOM t)).
Proof.
  unfold constructor.
  destruct (querySelector (has_class "tooltip__content") [] DOM_el); [ | discriminate ].
  unfold layout. destruct (querySelector (has_class "tooltip__bg") [] DOM_el);
    [ | discriminate ].
  intros [= <-]. cbn. eauto.
Qed.

(** The name [tooltipContent] resolves to [animateTooltipContent]:
    toggled with it while a timeline exists, the instance keeps that
    timeline live, and neither kills nor makes one. *)
Lemma toggle_tooltipContent_keeps_timeline :
  let w := after_all (initial Samples.demo)
             [Toggle (Some "effect2") (Samples.mouse 10 10)] in
  let r := toggle (Some "tooltipContent") (Samples.mouse 10 10) w in
  member (methodName "tooltipContent") = Some AnimateTooltipContent
  /\ tl (this w) = Some 0%nat
  /\ live <$> timelines w = [true]
  /\ fst r = Ok tt
  /\ live <$> timelines (snd r) = [true]
  /\ requests (snd r) = requests w
  /\ requests w = [NewTimeline 0].
Proof. vm_compute. repeat split. Qed.

(** C7. In every state that an instance reaches from its construction, at
    most one timeline is live (created and not killed), the one in
    [this.tl], which is live whenever it is set.  A [toggle] with the name
    of one of the six effect routines replaces the current timeline,
    however the routine ends: the calls it makes on whole timelines are the
    kill of [this.tl], if there is one, followed by the making of the new
    timeline, in this order; afterwards every timeline that existed is
    killed and the new one is live and is [this.tl].  A [toggle] with the
    name of the content animation kills and makes no timeline. *)
Theorem toggle_supersedes_timeline
    (DOM_el : element) (t : Tooltip) (os : list operation)
    (effect : string) (event : jsevent) :
  constructor DOM_el = Ok t ->
  let w := after_all (initial t) os in
  let w' := snd (toggle (Some effect) event w) in
  one_live w /\ current_live w
  /\ one_live w'
  /\ forall m, member (methodName effect) = Some m ->
       (m <> AnimateTooltipContent -> replaced w w')
       /\ (m = AnimateTooltipContent -> same_timelines w w').
Proof.
  intros Hnew w w'.
  destruct (constructor_tl DOM_el t Hnew) as [Htl _].
  destruct (one_live_after_all t os Htl) as [Hone Hcur].
  split; [ exact Hone | split; [ exact Hcur | ] ].
  split.
  { pose proof (proj1 (one_live_after_all t (os ++ [Toggle (Some effect) event]) Htl)) as H.
    unfold after_all in H. rewrite fold_left_app in H. exact H. }
  intros m Hm. subst w'. unfold toggle, bind, modify, animateCells. rewrite Hm.
  cbn [snd]. split.
  - intros Hne.
    assert (Hbg : is_Some (bg (DOM (this w)))).
    { destruct (same_refs_after_all t os) as (Hb & _). unfold w. rewrite Hb.
      exact (constructor_bg DOM_el t Hnew). }
    exact (call_effect_replaced m event (flip_isOpen w) Hne Hbg Hone).
  - intros ->. cbn [call].
    assert (H : keeps (same_timelines w) animateTooltipContent)
      by (apply keeps_animateTooltipContent, same_timelines_tl_add).
    apply (H (flip_isOpen w)). repeat split.
Qed.

(** * The grid *)

Lemma for_from_iter {T} (f : T -> T) (fuel : nat) :
  forall (i n : Z) (s : T),
    (Z.to_nat (n - i) <= fuel)%nat ->
    for_from fuel i n (fun _ => f) s = Nat.iter (Z.to_nat (n - i)) f s.
Proof.
  induction fuel as [ | fuel IH ]; intros i n s Hfuel; cbn [for_from].
  - replace (Z.to_nat (n - i)) with 0%nat by lia. reflexivity.
  - destruct (Z.ltb_spec i n) as [Hlt | Hge].
    + rewrite IH by lia.
      replace (Z.to_nat (n - i)) with (S (Z.to_nat (n - (i + 1)))) by lia.
      rewrite Nat.iter_succ_r. reflexivity.
    + replace (Z.to_nat (n - i)) with 0%nat by lia. reflexivity.
Qed.

(** A counting loop whose body ignores the counter runs it [max(0, n)]
    times. *)
Lemma for_lt_iter {T} (f : T -> T) (n : Z) (s : T) :
  for_lt n (fun _ => f) s = Nat.iter (Z.to_nat n) f s.
Proof.
  unfold for_lt. rewrite for_from_iter by lia.
  replace (n - 0) with n by lia. reflexivity.
Qed.

Lemma layout_html_cells (rows cols : Z) :
  layout_html rows cols = cells_html (Z.to_nat rows * Z.to_nat cols).
Proof.
  unfold layout_html.
  rewrite (for_lt_iter
             (fun strHTML => for_lt cols (fun _ s => s ++ "<div></div>") strHTML)).
  induction (Z.to_nat rows) as [ | r IH ]; [ reflexivity | ].
  rewrite Nat.iter_succ, IH.
  rewrite (for_lt_iter (fun s => s ++ "<div></div>")).
  unfold cells_html. rewrite <- Nat.iter_add. reflexivity.
Qed.

Lemma append_cons (a : ascii) (s t : string) : String a s ++ t = String a (s ++ t).
Proof. reflexivity. Qed.

Lemma append_assoc (s t u : string) : (s ++ t) ++ u = s ++ (t ++ u).
Proof.
  induction s as [ | a s IH ]; [ reflexivity | ].
  rewrite !append_cons, IH. reflexivity.
Qed.

Lemma cells_html_S (n : nat) : cells_html (S n) = "<div></div>" ++ cells_html n.
Proof.
  induction n as [ | n IH ]; [ reflexivity | ].
  change (cells_html (S (S n))) with (cells_html (S n) ++ "<div></div>").
  rewrite IH at 1. rewrite append_assoc. reflexivity.
Qed.

Lemma strip_prefix_append (p s : string) : strip_prefix p (p ++ s) = Some s.
Proof.
  induction p as [ | a p IH ]; [ destruct s; reflexivity | ].
  rewrite append_cons. cbn [strip_prefix]. rewrite Ascii.eqb_refl. exact IH.
Qed.

(** The fragment parser reads the markup of [n] cells as [n] empty [div]
    elements. *)
Lemma parse_cells_html (n : nat) :
  forall fuel, (n <= fuel)%nat ->
    parse_fragment fuel (cells_html n) = replicate n empty_div.
Proof.
  induction n as [ | n IH ]; intros fuel Hfuel.
  - destruct fuel; reflexivity.
  - destruct fuel as [ | fuel ]; [ lia | ].
    rewrite cells_html_S. cbn [parse_fragment].
    rewrite strip_prefix_append. cbn [replicate]. f_equal. apply IH. lia.
Qed.

Lemma length_append (s t : string) :
  String.length (s ++ t) = (String.length s + String.length t)%nat.
Proof.
  induction s as [ | a s IH ]; [ reflexivity | ].
  rewrite append_cons. cbn [String.length]. rewrite IH. reflexivity.
Qed.

Lemma length_cells_html (n : nat) : (n <= String.length (cells_html n))%nat.
Proof.
  induction n as [ | n IH ]; [ reflexivity | ].
  rewrite cells_html_S, length_append. cbn [String.length]. lia.
Qed.

Lemma childNodes_set_innerHTML_cells (n : nat) (e : element) :
  childNodes (set_innerHTML (cells_html n) e) = replicate n empty_div.
Proof.
  unfold set_innerHTML. cbn [set_childNodes childNodes].
  apply parse_cells_html, length_cells_html.
Qed.

Lemma select_all_unfold p e :
  select_all p e = all_in p (select_all p) (childNodes e) 0%nat.
Proof. destruct e. reflexivity. Qed.

Lemma select_first_unfold p e :
  select_first p e = first_in p (select_first p) (childNodes e) 0%nat.
Proof. destruct e. reflexivity. Qed.

(** [querySelectorAll('div')] on a run of empty [div] elements finds each
    of them. *)
Lemma all_in_empty_divs (n : nat) :
  forall i, length (all_in (has_tag "div") (select_all (has_tag "div"))
                           (replicate n empty_div) i) = n.
Proof.
  induction n as [ | n IH ]; intros i; [ reflexivity | ].
  cbn [replicate all_in]. change (has_tag "div" empty_div) with true.
  change (select_all (has_tag "div") empty_div) with (@nil path).
  cbn [map app length]. rewrite IH. reflexivity.
Qed.

(** Induction on the tree of an element. *)
Lemma element_tree_ind (P : element -> Prop) :
  (forall e, Forall P (childNodes e) -> P e) -> forall e, P e.
Proof.
  intros H.
  refine (fix IH (e : element) : P e :=
            match e with
            | Element n c d s l =>
                H (Element n c d s l)
                  ((fix go (l : list element) : Forall P l :=
                      match l with
                      | [] => List.Forall_nil P
                      | x :: l' => @List.Forall_cons _ P x l' (IH x) (go l')
                      end) l)
            end).
Qed.

Lemma first_in_found p (l : list element) :
  Forall (fun c => forall q, select_first p c = Some q -> is_Some (node_at q c)) l ->
  forall i q, first_in p (select_first p) l i = Some q ->
    exists j c q', l !! j = Some c /\ q = (i + j)%nat :: q' /\ is_Some (node_at q' c).
Proof.
  induction l as [ | c l IHl ]; intros Hall i q Hfind; [ discriminate | ].
  cbn [first_in] in Hfind. apply Forall_cons in Hall as [Hc Hall].
  destruct (p c).
  - injection Hfind as <-. exists 0%nat, c, []. rewrite Nat.add_0_r.
    split; [ reflexivity | split; [ reflexivity | cbn; eauto ] ].
  - destruct (select_first p c) as [q0 | ] eqn:Hq0.
    + injection Hfind as <-. exists 0%nat, c, q0. rewrite Nat.add_0_r.
      split; [ reflexivity | split; [ reflexivity | apply Hc; reflexivity ] ].
    + destruct (IHl Hall (S i) q Hfind) as (j & c' & q' & Hj & -> & Hq').
      exists (S j), c', q'.
      split; [ exact Hj | split; [ f_equal; lia | exact Hq' ] ].
Qed.

(** A path found by [select_first] leads to a node. *)
Lemma select_first_valid p :
  forall e q, select_first p e = Some q -> is_Some (node_at q e).
Proof.
  induction e as [e IHe] using element_tree_ind. intros q.
  rewrite select_first_unfold. intros Hfind.
  destruct (first_in_found p (childNodes e) IHe 0%nat q Hfind)
    as (j & c & q' & Hj & -> & Hq').
  cbn [node_at Nat.add]. rewrite Hj. exact Hq'.
Qed.

Lemma node_at_modify_at f (q : path) :
  forall e n, node_at q e = Some n -> node_at q (modify_at f q e) = Some (f n).
Proof.
  induction q as [ | i q IH ]; intros e n Hn; cbn [node_at modify_at childNodes] in *.
  - injection Hn as <-. reflexivity.
  - rewrite list_lookup_alter_eq.
    destruct (childNodes e !! i) as [c | ]; [ | discriminate ].
    cbn. apply IH, Hn.
Qed.

Lemma childNodes_node_at_set_style k v (q : path) e :
  childNodes <$> node_at q (set_style k v e) = childNodes <$> node_at q e.
Proof. destruct q; reflexivity. Qed.

(** [#layout] on an instance with its background block: as many cells as
    the two loops make turns. *)
Lemma layout_cells el (b : path) (rows cols : Z) :
  is_Some (node_at b el) ->
  exists el' cs,
    layout el (Some b) rows cols = Ok (el', cs)
    /\ length cs = (Z.to_nat rows * Z.to_nat cols)%nat.
Proof.
  intros [n Hn]. unfold layout. rewrite layout_html_cells.
  set (N := (Z.to_nat rows * Z.to_nat cols)%nat).
  set (el1 := modify_at (set_innerHTML (cells_html N)) b el).
  pose proof (node_at_modify_at (set_innerHTML (cells_html N)) b el n Hn) as H1.
  fold el1 in H1.
  pose proof (childNodes_node_at_set_style "--tt-rows" (pretty rows) b
                (set_style "--tt-columns" (pretty cols) el1)) as H2.
  rewrite (childNodes_node_at_set_style "--tt-columns" (pretty cols) b el1), H1 in H2.
  cbn [fmap option_fmap option_map] in H2.
  rewrite childNodes_set_innerHTML_cells in H2.
  destruct (node_at b _) as [bg_node | ] eqn:Hbg in H2 |- *; [ | discriminate ].
  injection H2 as H2.
  eexists _, _. split; [ reflexivity | ].
  rewrite length_map, select_all_unfold, H2. apply all_in_empty_divs.
Qed.

Lemma node_at_app (from q : path) :
  forall el n, node_at from el = Some n -> node_at (from ++ q)%list el = node_at q n.
Proof.
  induction from as [ | i from IH ]; intros el n Hfrom; cbn in *.
  - injection Hfrom as <-. reflexivity.
  - destruct (childNodes el !! i) as [c | ]; [ | discriminate ]. apply IH, Hfrom.
Qed.

Lemma querySelector_valid p from el q :
  querySelector p from el = Some q -> is_Some (node_at q el).
Proof.
  unfold querySelector. destruct (node_at from el) as [n | ] eqn:Hfrom; [ | discriminate ].
  destruct (select_first p n) as [q0 | ] eqn:Hq0; [ | discriminate ].
  intros [= <-]. rewrite (node_at_app from q0 el n Hfrom).
  apply (select_first_valid p n q0 Hq0).
Qed.

(** What [new Tooltip(DOM_el)] returns when both blocks are there. *)
Lemma constructor_ok DOM_el (b c : path) :
  querySelector (has_class "tooltip__bg") [] DOM_el = Some b ->
  querySelector (has_class "tooltip__content") [] DOM_el = Some c ->
  exists el' cs,
    constructor DOM_el
    = Ok {| DOM := {| el := el'; bg := Some b; content := Some c;
                      contentTitle :=
                        querySelector (has_class "tooltip__content-title") c DOM_el;
                      contentDescription :=
                        querySelector (has_class "tooltip__content-desc") c DOM_el;
                      cells := Some cs |};
            rows := JS.or (JS.parseInt (dataset DOM_el !! "rows")) 4;
            cols := JS.or (JS.parseInt (dataset DOM_el !! "cols")) 4;
            isOpen := false; tl := None |}
    /\ length cs = (Z.to_nat (JS.or (JS.parseInt (dataset DOM_el !! "rows")) 4)
                    * Z.to_nat (JS.or (JS.parseInt (dataset DOM_el !! "cols")) 4))%nat.
Proof.
  intros Hb Hc.
  destruct (layout_cells DOM_el b
              (JS.or (JS.parseInt (dataset DOM_el !! "rows")) 4)
              (JS.or (JS.parseInt (dataset DOM_el !! "cols")) 4)
              (querySelector_valid _ _ _ _ Hb)) as (el' & cs & Hlay & Hlen).
  exists el', cs. split; [ | exact Hlen ].
  unfold constructor. rewrite Hb, Hc, Hlay. reflexivity.
Qed.

(** Construction succeeds exactly when both blocks are there. *)
Lemma constructor_inv DOM_el t :
  constructor DOM_el = Ok t ->
  exists b c, querySelector (has_class "tooltip__bg") [] DOM_el = Some b
              /\ querySelector (has_class "tooltip__content") [] DOM_el = Some c.
Proof.
  unfold constructor.
  destruct (querySelector (has_class "tooltip__content") [] DOM_el) as [c | ];
    [ | discriminate ].
  unfold layout.
  destruct (querySelector (has_class "tooltip__bg") [] DOM_el) as [b | ];
    [ | discriminate ].
  eauto.
Qed.

Lemma constructor_demo : constructor (Samples.tooltip_el ∅) = Ok Samples.demo.
Proof. vm_compute. reflexivity. Qed.

Lemma toggle_supersedes_timeline_witness :
  let w := after_all (initial Samples.demo)
                     [Toggle (Some "effect2") (Samples.mouse 10 10)] in
  let w' := snd (toggle (Some "effect5") (Samples.mouse 20 20) w) in
  one_live w /\ current_live w
  /\ one_live w'
  /\ forall m, member (methodName "effect5") = Some m ->
       (m <> AnimateTooltipContent -> replaced w w')
       /\ (m = AnimateTooltipContent -> same_timelines w w').
Proof.
  exact (toggle_supersedes_timeline (Samples.tooltip_el ∅) Samples.demo
           [Toggle (Some "effect2") (Samples.mouse 10 10)]
           "effect5" (Samples.mouse 20 20) constructor_demo).
Defined.

(** A negative row count is kept, the loops make no turn, and the number of
    cells is not [rows * cols]. *)
Lemma negative_rows_give_no_cells :
  match constructor (Samples.tooltip_el {["rows" := "-2"]}) with
  | Ok t => cells (DOM t) = Some [] /\ rows t * cols t = -8
  | Throw _ => False
  end.
Proof. vm_compute. split; reflexivity. Qed.

(** C5 (amended). For every instance that [new Tooltip] returns, the cell
    array has [max(0, rows) * max(0, cols)] elements, which is [rows * cols]
    whenever neither count is negative; and no operation on the instance
    changes the cell array or the counts afterwards. *)
Theorem constructor_grid (DOM_el : element) (t : Tooltip) :
  constructor DOM_el = Ok t ->
  exists cs,
    cells (DOM t) = Some cs
    /\ Z.of_nat (length cs) = Z.max 0 (rows t) * Z.max 0 (cols t)
    /\ (0 <= rows t -> 0 <= cols t -> Z.of_nat (length cs) = rows t * cols t)
    /\ forall os, let w := after_all (initial t) os in
         cells (DOM (this w)) = Some cs
         /\ rows (this w) = rows t /\ cols (this w) = cols t.
Proof.
  intros Hnew. destruct (constructor_inv DOM_el t Hnew) as (b & c & Hb & Hc).
  destruct (constructor_ok DOM_el b c Hb Hc) as (el' & cs & Heq & Hlen).
  rewrite Heq in Hnew. injection Hnew as <-. cbn [DOM cells rows cols].
  exists cs. split; [ reflexivity | ].
  split; [ rewrite Hlen; lia | ].
  split; [ intros Hr Hk; rewrite Hlen; lia | ].
  intros os. cbv zeta.
  destruct (same_refs_after_all
              {| DOM := {| el := el'; bg := Some b; content := Some c;
                           contentTitle :=
                             querySelector (has_class "tooltip__content-title") c DOM_el;
                           contentDescription :=
                             querySelector (has_class "tooltip__content-desc") c DOM_el;
                           cells := Some cs |};
                 rows := JS.or (JS.parseInt (dataset DOM_el !! "rows")) 4;
                 cols := JS.or (JS.parseInt (dataset DOM_el !! "cols")) 4;
                 isOpen := false; tl := None |} os)
    as (_ & _ & _ & _ & Hcells & Hrows & Hcols).
  split; [ exact Hcells | split; [ exact Hrows | exact Hcols ] ].
Qed.

Lemma constructor_grid_witness :
  exists cs,
    cells (DOM Samples.demo) = Some cs
    /\ Z.of_nat (length cs) = Z.max 0 (rows Samples.demo) * Z.max 0 (cols Samples.demo)
    /\ (0 <= rows Samples.demo -> 0 <= cols Samples.demo ->
        Z.of_nat (length cs) = rows Samples.demo * cols Samples.demo)
    /\ forall os, let w := after_all (initial Samples.demo) os in
         cells (DOM (this w)) = Some cs
         /\ rows (this w) = rows Samples.demo /\ cols (this w) = cols Samples.demo.
Proof.
  exact (constructor_grid (Samples.tooltip_el ∅) Samples.demo constructor_demo).
Defined.

(** A negative row count in the attribute is the instance's [rows]. *)
Lemma negative_rows_attribute_is_kept :
  match constructor (Samples.tooltip_el {["rows" := "-2"]}) with
  | Ok t => rows t = -2
  | Throw _ => False
  end.
Proof. vm_compute. reflexivity. Qed.

(** [n || d] for a default [d] that is not zero. *)
Lemma or_default (n : JS.num) (d : Z) :
  d <> 0 ->
  JS.or n d <> 0
  /\ (n = JS.NaN \/ n = JS.Num 0 -> JS.or n d = d)
  /\ (forall z, n = JS.Num z -> z <> 0 -> JS.or n d = z).
Proof.
  intros Hd. destruct n as [z | ]; cbn.
  - destruct (Z.eqb_spec z 0) as [-> | Hz]; cbn.
    + split; [ exact Hd | split; [ reflexivity | intros z [= <-] H; congruence ] ].
    + split; [ exact Hz | split ].
      * intros [H | [= H]]; [ discriminate | congruence ].
      * intros z' [= <-] _. reflexivity.
  - split; [ exact Hd | split; [ reflexivity | discriminate ] ].
Qed.

(** C9 (amended). For every constructed instance [rows] and [cols] are not
    zero: a count attribute that parses to 0, or to no number, is replaced
    by the default 4, so a configured 0x0 grid is impossible.  Any other
    parsed value is kept as it is: a positive one gives a count of at least
    1, a negative one a negative count. *)
Theorem constructor_counts (DOM_el : element) (t : Tooltip) :
  constructor DOM_el = Ok t ->
  let r := JS.parseInt (dataset DOM_el !! "rows") in
  let c := JS.parseInt (dataset DOM_el !! "cols") in
  rows t <> 0 /\ cols t <> 0
  /\ (r = JS.NaN \/ r = JS.Num 0 -> rows t = 4)
  /\ (c = JS.NaN \/ c = JS.Num 0 -> cols t = 4)
  /\ (forall z, r = JS.Num z -> z <> 0 -> rows t = z)
  /\ (forall z, c = JS.Num z -> z <> 0 -> cols t = z).
Proof.
  intros Hnew r c. destruct (constructor_inv DOM_el t Hnew) as (b & q & Hb & Hq).
  destruct (constructor_ok DOM_el b q Hb Hq) as (el' & cs & Heq & _).
  rewrite Heq in Hnew. injection Hnew as <-. cbn [rows cols]. fold r c.
  destruct (or_default r 4) as (Hr0 & Hr4 & Hrz); [ discriminate | ].
  destruct (or_default c 4) as (Hc0 & Hc4 & Hcz); [ discriminate | ].
  repeat split; assumption.
Qed.

Lemma constructor_counts_witness :
  let r := JS.parseInt (dataset (Samples.tooltip_el ∅) !! "rows") in
  let c := JS.parseInt (dataset (Samples.tooltip_el ∅) !! "cols") in
  rows Samples.demo <> 0 /\ cols Samples.demo <> 0
  /\ (r = JS.NaN \/ r = JS.Num 0 -> rows Samples.demo = 4)
  /\ (c = JS.NaN \/ c = JS.Num 0 -> cols Samples.demo = 4)
  /\ (forall z, r = JS.Num z -> z <> 0 -> rows Samples.demo = z)
  /\ (forall z, c = JS.Num z -> z <> 0 -> cols Samples.demo = z).
Proof.
  exact (constructor_counts (Samples.tooltip_el ∅) Samples.demo constructor_demo).
Defined.

(** * Missing parts of the tooltip element *)


Lemma tl_add_some c w i :
  tl (this w) = Some i ->
  accepted c = true ->
  tl_add c w = (Ok tt, set_timelines (alter (add_child c) i) w).
Proof.
  intros H Hacc. unfold tl_add, tl_put, bind, gets, modify. cbn. rewrite H.
  unfold accepted in Hacc.
  destruct (targets_of c) as [[ | [q | ] rest] | ]; try discriminate; reflexivity.
Qed.

Lemma tl_add_none c w :
  tl (this w) = None ->
  tl_add c w
  = (Throw (TypeError "Cannot read properties of undefined (reading 'fromTo')"), w).
Proof. intros H. unfold tl_add, tl_put, bind, gets. cbn. rewrite H. reflexivity. Qed.

(** A tween whose first target is [null] is refused by the engine. *)
Lemma tl_add_null c w i rest :
  tl (this w) = Some i ->
  targets_of c = Some (None :: rest) ->
  tl_add c w
  = (Throw (TypeError "Cannot read properties of null (reading '_gsap')"), w).
Proof.
  intros H Hc. unfold tl_add, tl_put, bind, gets. cbn. rewrite H, Hc. reflexivity.
Qed.







(** * The dispatcher: a start event followed at once by an end event *)

Section Rapid.

Import Index.

Variable useTouchEvents : bool.
Variable effect : option string.
Variable b : browser.

(** A start event on a page without pending timer sets the show timer. *)
Lemma step_start_idle w st ht n t0 cs un e :
  step useTouchEvents effect b
       {| tooltip := w; showTimeout := st; hideTimeout := ht; pending := [];
          next_id := n; now := t0; calls := cs; uncaught := un |}
       (StartEvent e)
  = {| tooltip := w; showTimeout := Some n; hideTimeout := ht;
       pending := [ {| id := n; due := t0 + 40; job := Show e |} ];
       next_id := S n; now := t0; calls := cs; uncaught := un |}.
Proof. destruct ht; reflexivity. Qed.

(** Time that passes before the only pending timer is due fires nothing. *)
Lemma step_elapse_early w st ht t n t0 cs un (d : nat) :
  t0 + Z.of_nat d < due t ->
  step useTouchEvents effect b
       {| tooltip := w; showTimeout := st; hideTimeout := ht; pending := [t];
          next_id := n; now := t0; calls := cs; uncaught := un |}
       (Elapse d)
  = {| tooltip := w; showTimeout := st; hideTimeout := ht; pending := [t];
       next_id := n; now := t0 + Z.of_nat d; calls := cs; uncaught := un |}.
Proof.
  intros Hearly. cbn [step now pending length fire next_timer].
  destruct (Z.leb_spec (due t) (t0 + Z.of_nat d)) as [H | H]; [ lia | reflexivity ].
Qed.

(** An end event clears the pending show timer and sets the hide timer. *)
Lemma step_end_cancels_show w ht i e1 due1 n t0 cs un e :
  step useTouchEvents effect b
       {| tooltip := w; showTimeout := Some i; hideTimeout := ht;
          pending := [ {| id := i; due := due1; job := Show e1 |} ];
          next_id := n; now := t0; calls := cs; uncaught := un |}
       (EndEvent e)
  = {| tooltip := w; showTimeout := Some i; hideTimeout := Some n;
       pending := [ {| id := n; due := t0 + 40; job := Hide e |} ];
       next_id := S n; now := t0; calls := cs; uncaught := un |}.
Proof.
  cbn. rewrite decide_False by (intros H; apply H; reflexivity). reflexivity.
Qed.

(** The hide timer, fired or not, leaves a closed tooltip alone. *)
Lemma step_elapse_hide_closed w st ht i e due1 n t0 cs un (k : nat) :
  isOpen (this w) = false ->
  let p' := step useTouchEvents effect b
       {| tooltip := w; showTimeout := st; hideTimeout := ht;
          pending := [ {| id := i; due := due1; job := Hide e |} ];
          next_id := n; now := t0; calls := cs; uncaught := un |}
       (Elapse k) in
  tooltip p' = w /\ calls p' = cs /\ uncaught p' = un.
Proof.
  intros Hclosed. cbn [step now pending length fire next_timer due].
  destruct (Z.leb_spec due1 (t0 + Z.of_nat k)) as [H | H]; cbn.
  - rewrite decide_False by (intros H'; apply H'; reflexivity). cbn.
    unfold turn, hide, bind, gets. cbn. rewrite Hclosed. cbn. auto.
  - auto.
Qed.

(** C6 (amended). On a page where the tooltip is closed and no timer is
    pending, a start event followed by an end event less than 40 ms later
    shows and hides nothing, however long one waits afterwards: the end
    event clears the show timer, and the hide timer that it sets finds the
    tooltip closed.  The listeners call no method of the tooltip, and the
    instance, [isOpen] included, is unchanged. *)
Theorem rapid_start_end_on_closed_tooltip
    (p : page) (e1 e2 : jsevent) (d k : nat) :
  isOpen (this (tooltip p)) = false ->
  pending p = [] ->
  (d < 40)%nat ->
  let p' := run useTouchEvents effect b p
                [StartEvent e1; Elapse d; EndEvent e2; Elapse k] in
  tooltip p' = tooltip p /\ calls p' = calls p /\ uncaught p' = uncaught p.
Proof.
  intros Hclosed Hpending Hd.
  destruct p as [w st ht pend n t0 cs un]. cbn in Hclosed, Hpending. subst pend.
  unfold run. cbn [fold_left tooltip calls uncaught].
  rewrite step_start_idle.
  rewrite step_elapse_early by (cbn [due]; lia).
  rewrite step_end_cancels_show.
  apply step_elapse_hide_closed. exact Hclosed.
Qed.

End Rapid.

Lemma rapid_start_end_on_closed_tooltip_witness :
  let p := Index.loaded Samples.demo in
  let p' := Index.run false (Some "effect2") Samples.viewport p
              [Index.StartEvent (Samples.mouse 10 10); Index.Elapse 25;
               Index.EndEvent (Samples.mouse 10 10); Index.Elapse 100] in
  Index.tooltip p' = Index.tooltip p
  /\ Index.calls p' = Index.calls p
  /\ Index.uncaught p' = Index.uncaught p.
Proof.
  apply (rapid_start_end_on_closed_tooltip false (Some "effect2") Samples.viewport
           (Index.loaded Samples.demo) (Samples.mouse 10 10) (Samples.mouse 10 10)
           25 100);
    [ reflexivity | reflexivity | lia ].
Defined.

(** When the tooltip is open, a start event followed by an end event
    10 ms later does hide it: the hide timer fires and calls [toggle].  The
    tooltip is opened by hovering, left, and re-entered before it closed. *)
Lemma rapid_start_end_on_open_tooltip_hides :
  let e := Samples.mouse 10 10 in
  let go := Index.run false (Some "effect2") Samples.viewport in
  let p := go (Index.loaded Samples.demo)
              [Index.StartEvent e; Index.Elapse 40;
               Index.EndEvent e; Index.Elapse 10] in
  let p' := go p [Index.StartEvent e; Index.Elapse 10;
                  Index.EndEvent e; Index.Elapse 40] in
  isOpen (this (Index.tooltip p)) = true
  /\ isOpen (this (Index.tooltip p')) = false
  /\ Index.calls p'
     = (Index.calls p ++ [Index.CallToggle (Some "effect2") e])%list.
Proof. vm_compute. repeat split. Qed.

(** * Further properties of the position computation *)

(** One axis, for any scroll offset [s]. *)
Lemma clamp_axis_scrolled (c size extent s : Z) :
  exists r,
    (let p := JS.add (JS.Num c) s in
     let p := if JS.gt (JS.add (JS.Num c) size) extent
              then JS.add (JS.sub (JS.Num c) size) s else p in
     if JS.lt p s then JS.Num s else p) = JS.Num r
    /\ s <= r
    /\ (0 <= size -> r <= Z.max s (c + s))
    /\ (0 <= c <= extent -> 0 <= size <= extent -> r + size <= s + extent).
Proof.
  cbn [JS.add JS.sub JS.gt JS.lt].
  destruct (Z.ltb_spec extent (c + size)) as [Hover | Hfit]; cbn [JS.lt].
  - destruct (Z.ltb_spec (c - size + s) s) as [Hneg | Hpos];
      eexists; (split; [ reflexivity | ]); repeat split; lia.
  - destruct (Z.ltb_spec (c + s) s) as [Hneg | Hpos];
      eexists; (split; [ reflexivity | ]); repeat split; lia.
Qed.

(** The position of an event that carries coordinates, axis by axis. *)
Lemma calculateTooltipPosition_axes (b : browser) (event : jsevent) (x y : Z) :
  event_clientX event = JS.Num x ->
  event_clientY event = JS.Num y ->
  let sl := JS.or (JS.Num (pageXOffset b)) (documentElement_scrollLeft b) in
  let st := JS.or (JS.Num (pageYOffset b)) (documentElement_scrollTop b) in
  exists l t,
    calculateTooltipPosition b event = Ok {| left := JS.Num l; top := JS.Num t |}
    /\ (sl <= l
        /\ (0 <= el_offsetWidth b -> l <= Z.max sl (x + sl))
        /\ (0 <= x <= innerWidth b -> 0 <= el_offsetWidth b <= innerWidth b ->
            l + el_offsetWidth b <= sl + innerWidth b))
    /\ (st <= t
        /\ (0 <= el_offsetHeight b -> t <= Z.max st (y + st))
        /\ (0 <= y <= innerHeight b -> 0 <= el_offsetHeight b <= innerHeight b ->
            t + el_offsetHeight b <= st + innerHeight b)).
Proof.
  intros Hx Hy sl st.
  destruct (clamp_axis_scrolled x (el_offsetWidth b) (innerWidth b) sl) as (l & Hl & Hlb).
  destruct (clamp_axis_scrolled y (el_offsetHeight b) (innerHeight b) st) as (t & Ht & Htb).
  exists l, t. split; [ | split; assumption ].
  unfold calculateTooltipPosition.
  destruct event; try discriminate Hx; rewrite Hx, Hy; fold sl st;
    cbv zeta in Hl, Ht; cbv zeta; rewrite Hl, Ht; reflexivity.
Qed.

(** X1. Whatever the scroll offsets, for a pointer inside the viewport and
    a tooltip that is not larger than the viewport, the whole box of the
    tooltip at the computed position lies in the visible part of the
    document: [scroll <= left], [left + width <= scroll + viewport width],
    and the same vertically. *)
Theorem position_box_in_viewport (b : browser) (event : jsevent) (x y : Z) :
  event_clientX event = JS.Num x ->
  event_clientY event = JS.Num y ->
  0 <= x <= innerWidth b ->
  0 <= y <= innerHeight b ->
  0 <= el_offsetWidth b <= innerWidth b ->
  0 <= el_offsetHeight b <= innerHeight b ->
  let sl := JS.or (JS.Num (pageXOffset b)) (documentElement_scrollLeft b) in
  let st := JS.or (JS.Num (pageYOffset b)) (documentElement_scrollTop b) in
  exists l t,
    calculateTooltipPosition b event = Ok {| left := JS.Num l; top := JS.Num t |}
    /\ sl <= l /\ l + el_offsetWidth b <= sl + innerWidth b
    /\ st <= t /\ t + el_offsetHeight b <= st + innerHeight b.
Proof.
  intros Hx Hy Hxin Hyin Hw Hh sl st.
  destruct (calculateTooltipPosition_axes b event x y Hx Hy)
    as (l & t & Heq & (Hl1 & _ & Hl3) & (Ht1 & _ & Ht3)).
  exists l, t. fold sl st in Hl1, Hl3, Ht1, Ht3. auto 10.
Qed.

(** X2. For every event that carries coordinates, inside the viewport or
    not, and every scroll offset, the computation returns a position that
    is never before the scroll offset and, for a tooltip of non-negative
    size, never after the pointer unless it was clamped to the scroll
    offset. *)
Theorem position_between_scroll_and_pointer (b : browser) (event : jsevent) (x y : Z) :
  event_clientX event = JS.Num x ->
  event_clientY event = JS.Num y ->
  0 <= el_offsetWidth b ->
  0 <= el_offsetHeight b ->
  let sl := JS.or (JS.Num (pageXOffset b)) (documentElement_scrollLeft b) in
  let st := JS.or (JS.Num (pageYOffset b)) (documentElement_scrollTop b) in
  exists l t,
    calculateTooltipPosition b event = Ok {| left := JS.Num l; top := JS.Num t |}
    /\ sl <= l <= Z.max sl (x + sl)
    /\ st <= t <= Z.max st (y + st).
Proof.
  intros Hx Hy Hw Hh sl st.
  destruct (calculateTooltipPosition_axes b event x y Hx Hy)
    as (l & t & Heq & (Hl1 & Hl2 & _) & (Ht1 & Ht2 & _)).
  exists l, t. fold sl st in Hl1, Hl2, Ht1, Ht2. auto 10.
Qed.

(** * Reading the count attributes *)

(** A property of the ten digit values holds below ten. *)
Lemma below_ten (P : N -> Prop) :
  Forall P (N.of_nat <$> seq 0 10) -> forall n, (n < 10)%N -> P n.
Proof.
  intros Hall n Hn. rewrite Forall_forall in Hall. apply Hall.
  apply list_elem_of_fmap. exists (N.to_nat n).
  split; [ lia | apply elem_of_seq; lia ].
Qed.

Lemma pretty_N_char_digit (n : N) :
  (n < 10)%N ->
  JS.digit (pretty_N_char n) = Some (Z.of_N n)
  /\ JS.is_space (pretty_N_char n) = false
  /\ pretty_N_char n <> "-"%char /\ pretty_N_char n <> "+"%char.
Proof.
  revert n. apply below_ten. vm_compute.
  repeat (constructor;
          [ split; [ reflexivity | split; [ reflexivity | split; discriminate ] ] | ]).
  constructor.
Qed.

(** The digits that [pretty] writes are read back as the number. *)
Lemma digits_pretty_N_go (x : N) :
  forall s acc, default 0 acc = 0 -> (0 < x)%N ->
    JS.digits acc (pretty_N_go x s) = JS.digits (Some (Z.of_N x)) s.
Proof.
  induction (N.lt_wf_0 x) as [x _ IH]. intros s acc Hacc Hx.
  rewrite pretty_N_go_step by exact Hx.
  assert (Hmod : (x `mod` 10 < 10)%N) by (apply N.mod_lt; discriminate).
  destruct (pretty_N_char_digit _ Hmod) as (Hd & _).
  assert (Hsplit : Z.of_N x = 10 * Z.of_N (x `div` 10) + Z.of_N (x `mod` 10)).
  { rewrite (N.div_mod x 10%N) at 1 by discriminate.
    rewrite N2Z.inj_add, N2Z.inj_mul. reflexivity. }
  destruct (N.eq_dec (x `div` 10)%N 0%N) as [Hzero | Hpos].
  - rewrite Hzero, pretty_N_go_0. cbn [JS.digits]. rewrite Hd, Hacc.
    rewrite Hzero in Hsplit. rewrite Hsplit. reflexivity.
  - rewrite (IH (x `div` 10)%N) by (first [ apply N.div_lt; lia | assumption | lia ]).
    cbn [JS.digits]. rewrite Hd. cbn [default]. rewrite Hsplit. reflexivity.
Qed.

(** [pretty] of a positive number starts with a digit. *)
Lemma pretty_N_go_head (x : N) :
  forall s, (0 < x)%N ->
    exists n rest, (n < 10)%N /\ pretty_N_go x s = String (pretty_N_char n) rest.
Proof.
  induction (N.lt_wf_0 x) as [x _ IH]. intros s Hx.
  rewrite pretty_N_go_step by exact Hx.
  destruct (N.eq_dec (x `div` 10)%N 0%N) as [Hzero | Hpos].
  - rewrite Hzero, pretty_N_go_0. eexists _, _. split; [ | reflexivity ].
    apply N.mod_lt. discriminate.
  - apply IH; [ apply N.div_lt; lia | apply N.neq_0_lt_0; exact Hpos ].
Qed.

Lemma parseInt_string_digits (n : N) (rest : string) :
  (n < 10)%N ->
  JS.parseInt_string (String (pretty_N_char n) rest)
  = match JS.digits None (String (pretty_N_char n) rest) with
    | Some v => JS.Num (1 * JS.double v)
    | None => JS.NaN
    end.
Proof.
  revert n.
  apply (below_ten (fun n =>
           JS.parseInt_string (String (pretty_N_char n) rest)
           = match JS.digits None (String (pretty_N_char n) rest) with
             | Some v => JS.Num (1 * JS.double v)
             | None => JS.NaN
             end)).
  cbn [fmap list_fmap seq]. repeat (constructor; [ reflexivity | ]). constructor.
Qed.

Lemma double_safe (n : Z) : n < 9007199254740992 -> JS.double n = n.
Proof.
  intros H. unfold JS.double.
  destruct (Z.ltb_spec n 9007199254740992); [ reflexivity | lia ].
Qed.

(** [parseInt] reads back the decimal writing of an integer below 2^53 in
    magnitude. *)
Lemma parseInt_pretty (z : Z) :
  Z.abs z < 9007199254740992 -> JS.parseInt (Some (pretty z)) = JS.Num z.
Proof.
  intros Hsafe.
  unfold JS.parseInt. change (default "undefined" (Some (pretty z))) with (pretty z).
  destruct z as [ | p | p ].
  - reflexivity.
  - change (pretty (Z.pos p)) with (pretty_N_go (N.pos p) "").
    destruct (pretty_N_go_head (N.pos p) "") as (n & rest & Hn & Heq); [ lia | ].
    rewrite Heq, parseInt_string_digits by exact Hn. rewrite <- Heq.
    rewrite digits_pretty_N_go by (reflexivity || lia).
    cbn [JS.digits]. rewrite double_safe by lia. f_equal.
  - change (pretty (Z.neg p)) with (String "-" (pretty_N_go (N.pos p) "")).
    unfold JS.parseInt_string. cbn [JS.trim_start].
    change (JS.is_space "-") with false. change (JS.is_lead "-") with false.
    cbv iota. cbn [negb].
    rewrite digits_pretty_N_go by (reflexivity || lia).
    cbn [JS.digits]. rewrite double_safe by lia. f_equal.
Qed.

(** * Further properties of construction *)

(** X3. The count attributes are honoured: for an element that has both
    blocks and whose [data-rows] and [data-cols] are the decimal writings of
    two integers [r] and [k] other than 0 and below 2^53 in magnitude (the
    integers that a Number holds exactly), construction succeeds with
    [rows = r], [cols = k] and [max(0, r) * max(0, k)] cells. *)
Theorem constructor_honours_counts (DOM_el : element) (r k : Z) :
  is_Some (querySelector (has_class "tooltip__bg") [] DOM_el) ->
  is_Some (querySelector (has_class "tooltip__content") [] DOM_el) ->
  dataset DOM_el !! "rows" = Some (pretty r) ->
  dataset DOM_el !! "cols" = Some (pretty k) ->
  r <> 0 -> k <> 0 ->
  Z.abs r < 9007199254740992 -> Z.abs k < 9007199254740992 ->
  exists t cs,
    constructor DOM_el = Ok t
    /\ rows t = r /\ cols t = k
    /\ cells (DOM t) = Some cs
    /\ length cs = (Z.to_nat r * Z.to_nat k)%nat.
Proof.
  intros [b Hb] [c Hc] Hr Hk Hr0 Hk0 Hrs Hks.
  destruct (constructor_ok DOM_el b c Hb Hc) as (el' & cs & Heq & Hlen).
  rewrite Hr, Hk, !parseInt_pretty in Heq, Hlen by assumption.
  assert (Hor : forall z, z <> 0 -> JS.or (JS.Num z) 4 = z).
  { intros z Hz. cbn. destruct (Z.eqb_spec z 0); [ contradiction | reflexivity ]. }
  rewrite (Hor r Hr0), (Hor k Hk0) in Heq, Hlen.
  eexists _, cs. split; [ exact Heq | ]. cbn. auto.
Qed.

Lemma constructor_honours_counts_witness :
  exists t cs,
    constructor (Samples.tooltip_el (<["rows" := "3"]> {["cols" := "5"]})) = Ok t
    /\ rows t = 3 /\ cols t = 5
    /\ cells (DOM t) = Some cs
    /\ length cs = (Z.to_nat 3 * Z.to_nat 5)%nat.
Proof.
  apply (constructor_honours_counts
           (Samples.tooltip_el (<["rows" := "3"]> {["cols" := "5"]})) 3 5);
    [ exists [0%nat]; reflexivity | exists [1%nat]; reflexivity
    | reflexivity | reflexivity | discriminate | discriminate
    | reflexivity | reflexivity ].
Defined.

(** X4. What construction needs of the element: without a content block
    it throws at the query for the title; with a content block but without
    a background block it throws when [#layout] assigns [innerHTML]; with
    both it returns an instance that is closed, has no timeline, and refers
    to the two blocks found. *)
Theorem constructor_outcome (DOM_el : element) :
  match querySelector (has_class "tooltip__content") [] DOM_el,
        querySelector (has_class "tooltip__bg") [] DOM_el with
  | None, _ =>
      constructor DOM_el
      = Throw (TypeError "Cannot read properties of null (reading 'querySelector')")
  | Some c, None =>
      constructor DOM_el
      = Throw (TypeError "Cannot set properties of null (setting 'innerHTML')")
  | Some c, Some b =>
      exists t, constructor DOM_el = Ok t
                /\ bg (DOM t) = Some b /\ content (DOM t) = Some c
                /\ isOpen t = false /\ tl t = None
  end.
Proof.
  destruct (querySelector (has_class "tooltip__content") [] DOM_el) as [c | ] eqn:Hc.
  - destruct (querySelector (has_class "tooltip__bg") [] DOM_el) as [b | ] eqn:Hb.
    + destruct (constructor_ok DOM_el b c Hb Hc) as (el' & cs & Heq & _).
      eexists. split; [ exact Heq | ]. cbn. auto.
    + unfold constructor. rewrite Hc, Hb. reflexivity.
  - unfold constructor. rewrite Hc. reflexivity.
Qed.





(** * What an effect routine leaves on the timeline *)

(** A child put on the current timeline when it is the last one. *)
Lemma tl_add_run c th (l : list timeline) d e k ch rq co :
  tl th = Some (length l) ->
  accepted c = true ->
  tl_add c {| this := th;
              timelines := (l ++ [ {| duration := d; ease := e; killed := k;
                                      children := ch |} ])%list;
              requests := rq;
              console := co |}
  = (Ok tt,
     {| this := th;
        timelines := (l ++ [ {| duration := d; ease := e; killed := k;
                                children := (ch ++ [c])%list |} ])%list;
        requests := rq;
        console := co |}).
Proof.
  intros Htl Hacc. unfold tl_add, tl_put, bind, gets, modify. cbn. rewrite Htl.
  unfold accepted in Hacc.
  destruct (targets_of c) as [[ | [q | ] rest] | ]; try discriminate;
    unfold set_timelines; cbn;
    replace (length l) with (length l + 0)%nat at 1 by lia;
    rewrite alter_app_r; reflexivity.
Qed.

Lemma animateTooltipContent_run th (l : list timeline) d e k ch rq co :
  tl th = Some (length l) ->
  is_Some (contentTitle (DOM th)) ->
  animateTooltipContent
    {| this := th;
       timelines := (l ++ [ {| duration := d; ease := e; killed := k;
                               children := ch |} ])%list;
       requests := rq;
       console := co |}
  = (Ok tt,
     {| this := th;
        timelines :=
          (l ++ [ {| duration := d; ease := e; killed := k;
                     children :=
                       (ch ++ content_children (isOpen th) (contentTitle (DOM th))
                                               (contentDescription (DOM th)))%list |} ])%list;
        requests := rq;
        console := co |}).
Proof.
  intros Htl [q Hq]. unfold animateTooltipContent, bind, gets. cbv beta iota. cbn [this].
  rewrite tl_add_run by first [ exact Htl | rewrite Hq; reflexivity ].
  rewrite tl_add_run by first [ exact Htl | reflexivity ].
  rewrite tl_add_run by first [ exact Htl | reflexivity ].
  unfold content_children. rewrite <- !app_assoc. reflexivity.
Qed.

Lemma effect1_cells_run open event cs :
  forall i th (l : list timeline) d e k ch rq co,
    tl th = Some (length l) ->
    exists part,
      targets_of <$> part = (fun cell => Some [Some cell]) <$> cs
      /\ Forall (cell_tween open) part
      /\ effect1_cells open event i cs
           {| this := th;
              timelines := (l ++ [ {| duration := d; ease := e; killed := k;
                                      children := ch |} ])%list;
              requests := rq;
              console := co |}
         = (Ok tt,
            {| this := th;
               timelines := (l ++ [ {| duration := d; ease := e; killed := k;
                                       children := (ch ++ part)%list |} ])%list;
               requests := rq;
               console := co |}).
Proof.
  induction cs as [ | cell cs IH ]; intros i th l d e k ch rq co Htl; cbn [effect1_cells].
  - exists []. rewrite app_nil_r. split; [ reflexivity | split; [ constructor | reflexivity ] ].
  - unfold bind. destruct open; rewrite tl_add_run by first [ exact Htl | reflexivity ];
      match goal with
      | |- context [ (ch ++ [?c])%list ] =>
          destruct (IH (S i) th l d e k (ch ++ [c])%list rq co Htl)
            as (part & Htargets & Hkind & Hrun);
          rewrite Hrun; exists (c :: part); rewrite <- app_assoc;
          split; [ cbn; rewrite Htargets; reflexivity | ];
          split; [ constructor; [ split; reflexivity | exact Hkind ] | reflexivity ]
      end.
Qed.

Lemma cells_tween_run f t c th (l : list timeline) d e k rq co cs :
  tl th = Some (length l) ->
  is_Some (contentTitle (DOM th)) ->
  cells (DOM th) = Some cs ->
  cs <> [] ->
  exists part,
    targets_of <$> part = [Some (Some <$> cs)]
    /\ Forall (cell_tween (isOpen th)) part
    /\ cells_tween f t c
         {| this := th;
            timelines := (l ++ [ {| duration := d; ease := e; killed := k;
                                    children := [] |} ])%list;
            requests := rq;
            console := co |}
       = (Ok tt,
          {| this := th;
             timelines :=
               (l ++ [ {| duration := d; ease := e; killed := k;
                          children :=
                            (part ++ content_children (isOpen th) (contentTitle (DOM th))
                                                      (contentDescription (DOM th)))%list |} ])%list;
             requests := rq;
             console := co |}).
Proof.
  intros Htl Htitle Hcells Hcs. unfold cells_tween, bind, gets. cbv beta iota. cbn [this].
  rewrite Hcells. change (tl_put "") with tl_add.
  destruct (isOpen th) eqn:Hopen;
    rewrite tl_add_run
      by first [ exact Htl | destruct cs; [ congruence | reflexivity ] ];
    rewrite animateTooltipContent_run by assumption; rewrite Hopen;
    (eexists [_]; split; [ | split ]; [ | | reflexivity ];
     [ reflexivity | constructor; [ split; reflexivity | constructor ] ]).
Qed.

Lemma new_tl_then_cells_tween d e f t c w cs :
  is_Some (contentTitle (DOM (this w))) ->
  cells (DOM (this w)) = Some cs ->
  cs <> [] ->
  exists part,
    targets_of <$> part = [Some (Some <$> cs)]
    /\ Forall (cell_tween (isOpen (this w))) part
    /\ (new_tl d e >> cells_tween f t c) w
       = (Ok tt,
          {| this := with_tl (Some (length (timelines w))) (this w);
             timelines :=
               (kill_current w
                ++ [ {| duration := d; ease := e; killed := false;
                        children :=
                          (part ++ content_children (isOpen (this w))
                                                    (contentTitle (DOM (this w)))
                                                    (contentDescription (DOM (this w))))%list |} ])%list;
             requests := (requests w ++ replace_requests w)%list;
             console := console w |}).
Proof.
  intros Htitle Hcells Hcs. unfold bind at 1. rewrite new_tl_run.
  apply (cells_tween_run f t c (with_tl (Some (length (timelines w))) (this w)));
    [ cbn; rewrite length_kill_current; reflexivity
    | exact Htitle | exact Hcells | exact Hcs ].
Qed.

Lemma call_effect_run m event w cs q :
  m <> AnimateTooltipContent ->
  event <> Undefined ->
  is_Some (contentTitle (DOM (this w))) ->
  cells (DOM (this w)) = Some cs ->
  cs <> [] ->
  bg (DOM (this w)) = Some q ->
  exists w', call m event w = (Ok tt, w') /\ effect_result m q cs w w'.
Proof.
  intros Hm Hev Htitle Hcells Hcs Hbg.
  assert (Hrefs : forall th rq,
            same_refs th {| this := th; timelines := []; requests := rq; console := [] |})
    by (intros th rq; repeat split).
  destruct m; try congruence; cbn [call].
  - unfold animateEffect1. unfold bind at 1. rewrite new_tl_run.
    unfold bind at 1.
    assert (Hguard : forall s : world,
              match event with
              | Undefined =>
                  throw (TypeError "Cannot read properties of undefined (reading 'clientX')")
              | _ => ret tt
              end s = (Ok tt, s)) by (destruct event; [ | | | congruence ]; reflexivity).
    rewrite Hguard. unfold get_cells, bind, gets. cbv beta iota. cbn [this].
    change (cells (DOM (with_tl (Some (length (timelines w))) (this w))))
      with (cells (DOM (this w))).
    rewrite Hcells. unfold ret. cbv beta iota. cbn [this].
    assert (Htl : tl (with_tl (Some (length (timelines w))) (this w))
                  = Some (length (kill_current w)))
      by (cbn; rewrite length_kill_current; reflexivity).
    destruct (effect1_cells_run
                (isOpen (with_tl (Some (length (timelines w))) (this w))) event cs 0%nat
                (with_tl (Some (length (timelines w))) (this w)) (kill_current w)
                default_duration default_ease false []
                (requests w ++ replace_requests w)%list (console w) Htl)
      as (part & Htargets & Hkind & Hrun).
    rewrite Hrun. rewrite animateTooltipContent_run by assumption.
    eexists. split; [ reflexivity | ]. exists part.
    split; [ cbn [cell_targets]; rewrite Htargets, <- list_fmap_compose; reflexivity | ].
    split; [ exact Hkind | ]. cbn [app]. repeat split.
  - unfold animateEffect2.
    match goal with
    | |- context [ (new_tl ?d ?e >> cells_tween ?f ?t ?c) w ] =>
        destruct (new_tl_then_cells_tween d e f t c w cs Htitle Hcells Hcs)
          as (part & Htargets & Hkind & Hrun)
    end.
    rewrite Hrun. eexists. split; [ reflexivity | ]. exists part.
    split; [ exact Htargets | ]. split; [ exact Hkind | ]. repeat split.
  - unfold animateEffect3.
    match goal with
    | |- context [ (new_tl ?d ?e >> cells_tween ?f ?t ?c) w ] =>
        destruct (new_tl_then_cells_tween d e f t c w cs Htitle Hcells Hcs)
          as (part & Htargets & Hkind & Hrun)
    end.
    rewrite Hrun. eexists. split; [ reflexivity | ]. exists part.
    split; [ exact Htargets | ]. split; [ exact Hkind | ]. repeat split.
  - unfold animateEffect4.
    match goal with
    | |- context [ (new_tl ?d ?e >> cells_tween ?f ?t ?c) w ] =>
        destruct (new_tl_then_cells_tween d e f t c w cs Htitle Hcells Hcs)
          as (part & Htargets & Hkind & Hrun)
    end.
    rewrite Hrun. eexists. split; [ reflexivity | ]. exists part.
    split; [ exact Htargets | ]. split; [ exact Hkind | ]. repeat split.
  - unfold animateEffect5.
    match goal with
    | |- context [ (new_tl ?d ?e >> cells_tween ?f ?t ?c) w ] =>
        destruct (new_tl_then_cells_tween d e f t c w cs Htitle Hcells Hcs)
          as (part & Htargets & Hkind & Hrun)
    end.
    rewrite Hrun. eexists. split; [ reflexivity | ]. exists part.
    split; [ exact Htargets | ]. split; [ exact Hkind | ]. repeat split.
  - unfold animateEffect6. unfold bind at 1. unfold gets at 1. rewrite Hbg.
    unfold bind at 1. unfold modify at 1.
    set (w0 := set_this (with_el (modify_at (set_style "filter" "url(#gooey)") q)) w).
    match goal with
    | |- context [ (new_tl ?d ?e >> cells_tween ?f ?t ?c) w0 ] =>
        destruct (new_tl_then_cells_tween d e f t c w0 cs Htitle Hcells Hcs)
          as (part & Htargets & Hkind & Hrun)
    end.
    rewrite Hrun. eexists. split; [ reflexivity | ]. exists part.
    split; [ exact Htargets | ]. split; [ exact Hkind | ]. repeat split.
Qed.

(** The cells of a constructed instance with positive counts. *)
Lemma constructor_cells DOM_el t :
  constructor DOM_el = Ok t -> 0 < rows t -> 0 < cols t ->
  exists b cs, bg (DOM t) = Some b /\ cells (DOM t) = Some cs /\ cs <> [].
Proof.
  intros Hnew Hrows Hcols.
  destruct (constructor_inv DOM_el t Hnew) as (b & c & Hb & Hc).
  destruct (constructor_ok DOM_el b c Hb Hc) as (el' & cs & Heq & Hlen).
  rewrite Heq in Hnew. injection Hnew as Ht. subst t. cbn in *.
  exists b, cs. split; [ reflexivity | split; [ reflexivity | ] ].
  intros ->. cbn in Hlen. nia.
Qed.

(** [toggle] with one of the six effects on an instance that has its title
    and cells, in any state it can reach, for an event that is not
    [undefined]. *)
Lemma toggle_effect_run
    (DOM_el : element) (t : Tooltip) (os : list operation)
    (effect : string) (m : method) (event : jsevent) :
  constructor DOM_el = Ok t ->
  is_Some (contentTitle (DOM t)) ->
  0 < rows t -> 0 < cols t ->
  member (methodName effect) = Some m ->
  m <> AnimateTooltipContent ->
  event <> Undefined ->
  let w := after_all (initial t) os in
  exists b cs w',
    bg (DOM t) = Some b /\ cells (DOM t) = Some cs
    /\ toggle (Some effect) event w = (Ok tt, w')
    /\ effect_result m b cs (flip_isOpen w) w'.
Proof.
  intros Hnew Htitle Hrows Hcols Hm Hne Hev w.
  destruct (constructor_cells DOM_el t Hnew Hrows Hcols) as (b & cs & Hb & Hc & Hcs).
  destruct (same_refs_after_all t os) as (Hbg & _ & Hti & _ & Hcells & _).
  fold w in Hbg, Hcells, Hti. rewrite Hb in Hbg. rewrite Hc in Hcells.
  rewrite <- Hti in Htitle.
  exists b, cs.
  destruct (call_effect_run m event (flip_isOpen w) cs b Hne Hev Htitle Hcells Hcs Hbg)
    as (w' & Hrun & Hres).
  exists w'.
  split; [ exact Hb | split; [ exact Hc | split; [ | exact Hres ] ] ].
  unfold toggle, bind, modify, animateCells. rewrite Hm. exact Hrun.
Qed.

(** X6. On a constructed instance that has its title and description
    nodes and positive row and column counts, in every state the instance
    can reach, [toggle]
    with one of the six effect names and an event that is not [undefined]
    returns normally: it writes nothing to the console, negates [isOpen],
    kills the current timeline if there is one, and appends exactly one
    timeline, live, which becomes [this.tl]; the other timelines are as
    they were. *)
Theorem toggle_effect_returns
    (DOM_el : element) (t : Tooltip) (os : list operation)
    (effect : string) (m : method) (event : jsevent) :
  constructor DOM_el = Ok t ->
  is_Some (contentTitle (DOM t)) ->
  is_Some (contentDescription (DOM t)) ->
  0 < rows t -> 0 < cols t ->
  member (methodName effect) = Some m ->
  m <> AnimateTooltipContent ->
  event <> Undefined ->
  let w := after_all (initial t) os in
  exists w' new,
    toggle (Some effect) event w = (Ok tt, w')
    /\ console w' = console w
    /\ isOpen (this w') = negb (isOpen (this w))
    /\ timelines w' = (kill_current w ++ [new])%list
    /\ killed new = false
    /\ tl (this w') = Some (length (timelines w)).
Proof.
  intros Hnew Htitle _ Hrows Hcols Hm Hne Hev w.
  destruct (toggle_effect_run DOM_el t os effect m event
              Hnew Htitle Hrows Hcols Hm Hne Hev)
    as (b & cs & w' & _ & _ & Hrun & part & _ & _ & Htls & Htl & Hopen & _ & Hcon & _).
  exists w'. eexists. split; [ exact Hrun | ].
  split; [ exact Hcon | ]. split; [ exact Hopen | ].
  split; [ exact Htls | ]. split; [ reflexivity | exact Htl ].
Qed.

Lemma toggle_effect_returns_witness :
  let w := after_all (initial Samples.demo)
                     [Toggle (Some "effect3") (Samples.mouse 10 10)] in
  exists w' new,
    toggle (Some "effect6") (Samples.mouse 20 20) w = (Ok tt, w')
    /\ console w' = console w
    /\ isOpen (this w') = negb (isOpen (this w))
    /\ timelines w' = (kill_current w ++ [new])%list
    /\ killed new = false
    /\ tl (this w') = Some (length (timelines w)).
Proof.
  apply (toggle_effect_returns (Samples.tooltip_el ∅) Samples.demo
           [Toggle (Some "effect3") (Samples.mouse 10 10)]
           "effect6" AnimateEffect6 (Samples.mouse 20 20) constructor_demo);
    [ eexists; reflexivity | eexists; reflexivity | reflexivity | reflexivity
    | reflexivity | discriminate | discriminate ].
Defined.

(** X7. The timeline that one of the six effects creates, on a constructed
    instance that has its title and description nodes and positive row and
    column counts:
    its defaults are ease [expo] and duration 0.1 (0.9 for effect 6); its
    children are tweens on the cells, at position 0, each a [fromTo] when
    the tooltip opens and a [to] when it closes, with one tween per cell,
    in the order of the cells, for effect 1, and one tween on the array of
    all cells otherwise, followed by the three entries of the content
    animation, in the direction of the new [isOpen]; and the tree of the
    element is untouched, but for the filter that effect 6 sets on the
    background block. *)
Theorem toggle_effect_timeline
    (DOM_el : element) (t : Tooltip) (os : list operation)
    (effect : string) (m : method) (event : jsevent) :
  constructor DOM_el = Ok t ->
  is_Some (contentTitle (DOM t)) ->
  is_Some (contentDescription (DOM t)) ->
  0 < rows t -> 0 < cols t ->
  member (methodName effect) = Some m ->
  m <> AnimateTooltipContent ->
  event <> Undefined ->
  let w := after_all (initial t) os in
  let w' := snd (toggle (Some effect) event w) in
  exists b cs new part,
    bg (DOM t) = Some b /\ cells (DOM t) = Some cs
    /\ last (timelines w') = Some new
    /\ duration new = effect_duration m
    /\ ease new = "expo"
    /\ children new
       = (part ++ content_children (negb (isOpen (this w)))
                                   (contentTitle (DOM t)) (contentDescription (DOM t)))%list
    /\ targets_of <$> part = Some <$> cell_targets m cs
    /\ Forall (cell_tween (negb (isOpen (this w)))) part
    /\ length part = cell_tweens m cs
    /\ el (DOM (this w')) = effect_el m b (el (DOM (this w))).
Proof.
  intros Hnew Htitle _ Hrows Hcols Hm Hne Hev w w'.
  destruct (toggle_effect_run DOM_el t os effect m event
              Hnew Htitle Hrows Hcols Hm Hne Hev)
    as (b & cs & w1 & Hb & Hcs & Hrun & part & Htargets & Hkind & Htls
        & _ & _ & Hel & _ & _).
  fold w in Hrun, Htls, Hel, Hkind.
  assert (Hw' : w' = w1) by (unfold w'; rewrite Hrun; reflexivity).
  destruct (same_refs_after_all t os) as (_ & _ & Hti & Hdesc & _).
  fold w in Hti, Hdesc. cbn in Htls, Hel, Hkind. rewrite Hti, Hdesc in Htls.
  exists b, cs. eexists. exists part.
  split; [ exact Hb | ]. split; [ exact Hcs | ].
  rewrite Hw', Htls, last_snoc. cbn [duration ease children].
  split; [ reflexivity | ]. split; [ reflexivity | ]. split; [ reflexivity | ].
  split; [ reflexivity | ]. split; [ exact Htargets | ]. split; [ exact Hkind | ].
  split; [ | exact Hel ].
  apply (f_equal length) in Htargets. rewrite !length_fmap in Htargets.
  rewrite Htargets. destruct m; cbn; rewrite ?length_fmap; reflexivity.
Qed.

Lemma toggle_effect_timeline_witness :
  let w := after_all (initial Samples.demo) [] in
  let w' := snd (toggle (Some "effect1") (Samples.mouse 20 20) w) in
  exists b cs new part,
    bg (DOM Samples.demo) = Some b /\ cells (DOM Samples.demo) = Some cs
    /\ last (timelines w') = Some new
    /\ duration new = effect_duration AnimateEffect1
    /\ ease new = "expo"
    /\ children new
       = (part ++ content_children (negb (isOpen (this w)))
                                   (contentTitle (DOM Samples.demo))
                                   (contentDescription (DOM Samples.demo)))%list
    /\ targets_of <$> part = Some <$> cell_targets AnimateEffect1 cs
    /\ Forall (cell_tween (negb (isOpen (this w)))) part
    /\ length part = cell_tweens AnimateEffect1 cs
    /\ el (DOM (this w')) = effect_el AnimateEffect1 b (el (DOM (this w))).
Proof.
  apply (toggle_effect_timeline (Samples.tooltip_el ∅) Samples.demo []
           "effect1" AnimateEffect1 (Samples.mouse 20 20) constructor_demo);
    [ eexists; reflexivity | eexists; reflexivity | reflexivity | reflexivity
    | reflexivity | discriminate | discriminate ].
Defined.

(** * Edge cases of the dispatch by name *)

(** X8. The name of the content animation is an effect name too: with it
    [toggle] flips [isOpen] and neither kills nor makes a timeline.  Before
    any animation, when [this.tl] is [undefined], it throws a TypeError;
    with a current timeline and no title node it throws the engine's
    TypeError for a [null] target and puts nothing on the timeline; with a
    current timeline and both nodes it returns and puts the three content
    entries on that timeline, killed or not. *)
Theorem toggle_content_animation_name (w : world) (effect : string) (event : jsevent) :
  member (methodName effect) = Some AnimateTooltipContent ->
  let r := toggle (Some effect) event w in
  let w' := snd r in
  isOpen (this w') = negb (isOpen (this w))
  /\ tl (this w') = tl (this w)
  /\ console w' = console w
  /\ requests w' = requests w
  /\ (tl (this w) = None ->
      fst r = Throw (TypeError "Cannot read properties of undefined (reading 'fromTo')")
      /\ timelines w' = timelines w)
  /\ (is_Some (tl (this w)) -> contentTitle (DOM (this w)) = None ->
      fst r = Throw (TypeError "Cannot read properties of null (reading '_gsap')")
      /\ timelines w' = timelines w)
  /\ (forall i, tl (this w) = Some i ->
      is_Some (contentTitle (DOM (this w))) ->
      is_Some (contentDescription (DOM (this w))) ->
      fst r = Ok tt
      /\ timelines w'
         = alter (fun x =>
                    fold_left (fun x c => add_child c x)
                      (content_children (negb (isOpen (this w)))
                         (contentTitle (DOM (this w)))
                         (contentDescription (DOM (this w)))) x)
                 i (timelines w)).
Proof.
  intros Hm r w'. subst w' r.
  assert (Hflip : tl (this (flip_isOpen w)) = tl (this w)) by reflexivity.
  assert (Hrun : toggle (Some effect) event w = animateTooltipContent (flip_isOpen w)).
  { unfold toggle, bind, modify, animateCells. rewrite Hm. reflexivity. }
  rewrite Hrun. unfold animateTooltipContent, bind, gets. cbv beta iota.
  change (contentTitle (DOM (this (flip_isOpen w))))
    with (contentTitle (DOM (this w))).
  destruct (tl (this w)) as [i | ] eqn:Htl.
  - destruct (contentTitle (DOM (this w))) as [q | ] eqn:Htitle.
    + rewrite (tl_add_some _ _ i) by first [ exact Hflip | reflexivity ].
      rewrite (tl_add_some _ _ i) by first [ exact Hflip | reflexivity ].
      rewrite (tl_add_some _ _ i) by first [ exact Hflip | reflexivity ].
      cbn [fst snd set_timelines flip_isOpen set_this this timelines console requests
           with_isOpen isOpen tl DOM contentTitle contentDescription
           fold_left content_children].
      rewrite !list_alter_alter_eq.
      split; [ reflexivity | ]. split; [ exact Htl | ].
      split; [ reflexivity | ]. split; [ reflexivity | ].
      split; [ discriminate | ]. split; [ discriminate | ].
      intros j [= <-] _ _. split; reflexivity.
    + rewrite (tl_add_null _ _ i [contentDescription (DOM (this (flip_isOpen w)))])
        by first [ exact Hflip | reflexivity ].
      cbn [fst snd].
      split; [ reflexivity | ]. split; [ exact Htl | ].
      split; [ reflexivity | ]. split; [ reflexivity | ].
      split; [ discriminate | ]. split; [ split; reflexivity | ].
      intros j _ [x Hx]. discriminate.
  - rewrite tl_add_none by exact Hflip. cbn [fst snd].
    split; [ reflexivity | ]. split; [ exact Htl | ].
    split; [ reflexivity | ]. split; [ reflexivity | ].
    split; [ split; reflexivity | ].
    split; [ intros [x Hx]; discriminate | discriminate ].
Qed.

Lemma toggle_content_animation_name_witness :
  let w := after_all (initial Samples.demo)
             [Toggle (Some "effect4") (Samples.mouse 1 1)] in
  let r := toggle (Some "tooltipContent") (Samples.mouse 1 1) w in
  let w' := snd r in
  isOpen (this w') = negb (isOpen (this w))
  /\ tl (this w') = tl (this w)
  /\ console w' = console w
  /\ requests w' = requests w
  /\ (tl (this w) = None ->
      fst r = Throw (TypeError "Cannot read properties of undefined (reading 'fromTo')")
      /\ timelines w' = timelines w)
  /\ (is_Some (tl (this w)) -> contentTitle (DOM (this w)) = None ->
      fst r = Throw (TypeError "Cannot read properties of null (reading '_gsap')")
      /\ timelines w' = timelines w)
  /\ (forall i, tl (this w) = Some i ->
      is_Some (contentTitle (DOM (this w))) ->
      is_Some (contentDescription (DOM (this w))) ->
      fst r = Ok tt
      /\ timelines w'
         = alter (fun x =>
                    fold_left (fun x c => add_child c x)
                      (content_children (negb (isOpen (this w)))
                         (contentTitle (DOM (this w)))
                         (contentDescription (DOM (this w)))) x)
                 i (timelines w)).
Proof.
  exact (toggle_content_animation_name
           (after_all (initial Samples.demo)
              [Toggle (Some "effect4") (Samples.mouse 1 1)])
           "tooltipContent" (Samples.mouse 1 1) eq_refl).
Defined.

(** X9. Effect 1 reads the coordinates of the event.  Called with effect 1
    and an event that is [undefined], [toggle] throws a TypeError, but only
    after it has flipped [isOpen], killed the current timeline and made a
    new, empty timeline the current one. *)
Theorem toggle_effect1_undefined_event (w : world) (effect : string) :
  member (methodName effect) = Some AnimateEffect1 ->
  toggle (Some effect) Undefined w
  = (Throw (TypeError "Cannot read properties of undefined (reading 'clientX')"),
     {| this := with_tl (Some (length (timelines w)))
                        (with_isOpen (negb (isOpen (this w))) (this w));
        timelines := (kill_current w
                      ++ [ {| duration := 1 # 10; ease := "expo"; killed := false;
                              children := [] |} ])%list;
        requests := (requests w ++ replace_requests w)%list;
        console := console w |}).
Proof.
  intros Hm. unfold toggle, bind at 1, modify at 1, animateCells. rewrite Hm.
  cbn [call]. unfold animateEffect1. unfold bind at 1. rewrite new_tl_run.
  reflexivity.
Qed.

Lemma toggle_effect1_undefined_event_witness :
  toggle (Some "effect1") Undefined (initial Samples.demo)
  = (Throw (TypeError "Cannot read properties of undefined (reading 'clientX')"),
     {| this := with_tl (Some 0%nat) (with_isOpen true Samples.demo);
        timelines := [ {| duration := 1 # 10; ease := "expo"; killed := false;
                          children := [] |} ];
        requests := [NewTimeline 0];
        console := [] |}).
Proof.
  exact (toggle_effect1_undefined_event (initial Samples.demo) "effect1" eq_refl).
Defined.

Lemma upper_is_E (c : ascii) : JS.upper c = "E"%char -> c = "E"%char \/ c = "e"%char.
Proof.
  destruct c as [[] [] [] [] [] [] [] []]; vm_compute; intros H;
    first [ discriminate H | left; reflexivity | right; reflexivity ].
Qed.

Lemma upper_is_T (c : ascii) : JS.upper c = "T"%char -> c = "T"%char \/ c = "t"%char.
Proof.
  destruct c as [[] [] [] [] [] [] [] []]; vm_compute; intros H;
    first [ discriminate H | left; reflexivity | right; reflexivity ].
Qed.

(** X10. The effect names that resolve to a method are the fourteen of
    [effect_names] and no other: [effect1] to [effect6] and
    [tooltipContent], each also with a capital first letter.  Every other
    string, the empty one included, takes the warning branch. *)
Theorem member_methodName_iff (effect : string) (m : method) :
  member (methodName effect) = Some m <-> (effect, m) ∈ effect_names.
Proof.
  split.
  - unfold member, methodName, members. cbn [find].
    intros H.
    repeat match type of H with
    | context [ String.eqb ?a ?b ] =>
        destruct (String.eqb_spec a b) as [Heq | _];
        [ cbn in H; injection H as <-;
          cbv beta iota delta [String.append] in Heq; injection Heq as Heq;
          destruct effect as [ | c rest ]; [ discriminate Heq | ];
          cbn [JS.capitalize] in Heq; injection Heq as Hc Hrest; subst rest;
          first [ symmetry in Hc; apply upper_is_E in Hc
                | symmetry in Hc; apply upper_is_T in Hc ];
          destruct Hc as [-> | ->]; unfold effect_names; set_solver
        | ]
    end.
    cbn in H. discriminate H.
  - intros H. unfold effect_names in H.
    repeat (apply elem_of_cons in H as [[= -> ->] | H]; [ reflexivity | ]).
    apply elem_of_nil in H. contradiction.
Qed.

(** * Timelines only grow *)

Lemma grown_refl t : grown t t.
Proof. repeat split; auto. exists []. rewrite app_nil_r. reflexivity. Qed.

Lemma grown_add_child t t' c : grown t t' -> grown t (add_child c t').
Proof.
  intros (Hd & He & Hk & more & Hch). repeat split; cbn; auto.
  exists (more ++ [c])%list. rewrite Hch, app_assoc. reflexivity.
Qed.

Lemma grown_kill t t' : grown t t' -> grown t (kill t').
Proof.
  intros (Hd & He & Hk & more & Hch). repeat split; cbn; auto.
  exists more. exact Hch.
Qed.

Lemma timelines_grown_alter (f : timeline -> timeline) l i w :
  (forall t t', grown t t' -> grown t (f t')) ->
  timelines_grown l w ->
  timelines_grown l (set_timelines (alter f i) w).
Proof.
  intros Hf H j t Hj. destruct (H j t Hj) as (t' & Ht' & Hg). cbn.
  destruct (decide (i = j)) as [-> | Hne].
  - rewrite list_lookup_alter_eq, Ht'. cbn. eauto.
  - rewrite list_lookup_alter_ne by exact Hne. eauto.
Qed.

Lemma timelines_grown_tl_add l shown c : keeps (timelines_grown l) (tl_put shown c).
Proof.
  apply keeps_tl_add_of; [ intros w f H; exact H | ].
  intros w i _ H.
  apply timelines_grown_alter; [ intros; apply grown_add_child; assumption | exact H ].
Qed.

Lemma timelines_grown_new_tl l d e : keeps (timelines_grown l) (new_tl d e).
Proof.
  intros w H. rewrite new_tl_run. cbn [snd]. intros j t Hj. cbn [timelines].
  assert (Hk : exists t', kill_current w !! j = Some t' /\ grown t t').
  { unfold kill_current. destruct (tl (this w)) as [i | ]; [ | apply H, Hj ].
    apply (timelines_grown_alter kill l i w
             (fun t t' => grown_kill t t') H j t Hj). }
  destruct Hk as (t' & Ht' & Hg). exists t'. split; [ | exact Hg ].
  rewrite lookup_app_l; [ exact Ht' | ]. apply lookup_lt_Some in Ht'. exact Ht'.
Qed.

(** X11. No operation on an instance removes a timeline from the engine,
    revives a killed one, changes its defaults or takes children off it:
    along every sequence of operations each timeline stays at its place
    and only gains children or becomes killed. *)
Theorem timelines_only_grow (w : world) (os : list operation) :
  timelines_grown (timelines w) (after_all w os).
Proof.
  apply after_all_invariant.
  - intros w0 f H. exact H.
  - intros w0 f H. exact H.
  - apply timelines_grown_tl_add.
  - apply timelines_grown_new_tl.
  - intros w0 H. exact H.
  - intros j t Hj. exists t. split; [ exact Hj | apply grown_refl ].
Qed.

(** * The visibility class *)

Lemma has_class_class_add c e : has_class c (class_add c e) = true.
Proof.
  unfold class_add. destruct (has_class c e) eqn:Hhas; unfold has_class in *; cbn.
  - exact Hhas.
  - rewrite existsb_app. cbn. rewrite String.eqb_refl.
    rewrite orb_true_r. reflexivity.
Qed.

Lemma has_class_class_remove c e : has_class c (class_remove c e) = false.
Proof.
  unfold class_remove, has_class. cbn. induction (classList e) as [ | x l IH ].
  - reflexivity.
  - rewrite filter_cons. case_decide as Hx; [ | exact IH ].
    cbn. rewrite IH. destruct (String.eqb_spec c x); [ congruence | reflexivity ].
Qed.

(** X12. The class [tooltip--show] follows [isOpen] through the callbacks
    of a timeline.  On an open instance, [onStart] puts the class on the
    element (once, whatever classes it had) and raises [z-index] to 99999,
    and [onComplete] changes nothing.  On a closed instance, [onStart]
    lowers [z-index] to 0 and leaves the classes alone, and [onComplete]
    takes the class off. *)
Theorem show_class_follows_isOpen (w : world) :
  let shown (w : world) := has_class "tooltip--show" (el (DOM (this w))) in
  let z_index (w : world) := style (el (DOM (this w))) !! "z-index" in
  if isOpen (this w)
  then shown (after w OnStart) = true
       /\ z_index (after w OnStart) = Some "99999"
       /\ perform OnComplete w = (Ok tt, w)
  else shown (after w OnComplete) = false
       /\ z_index (after w OnStart) = Some "0"
       /\ classList (el (DOM (this (after w OnStart)))) = classList (el (DOM (this w))).
Proof.
  intros shown z_index. subst shown z_index. cbv beta.
  destruct (isOpen (this w)) eqn:Hopen.
  - assert (HS : after w OnStart
                 = set_this (with_el (class_add "tooltip--show"))
                     (set_this (with_el (set_style "z-index" "99999")) w)).
    { unfold after, perform, onStart, bind, gets, modify. cbv beta iota.
      rewrite Hopen. reflexivity. }
    rewrite HS. cbn [set_this with_el this DOM el].
    split; [ apply has_class_class_add | ].
    split; [ apply lookup_insert_eq | ].
    unfold perform, onComplete, bind, gets. cbv beta iota. rewrite Hopen. reflexivity.
  - assert (HS : after w OnStart = set_this (with_el (set_style "z-index" "0")) w).
    { unfold after, perform, onStart, bind, gets, modify. cbv beta iota.
      rewrite Hopen. reflexivity. }
    assert (HC : after w OnComplete
                 = set_this (with_el (class_remove "tooltip--show")) w).
    { unfold after, perform, onComplete, bind, gets, modify. cbv beta iota.
      rewrite Hopen. reflexivity. }
    rewrite HS, HC. cbn [set_this with_el this DOM el].
    split; [ apply has_class_class_remove | ].
    split; [ apply lookup_insert_eq | reflexivity ].
Qed.

(** * The dispatcher: hovering, leaving, coming back *)

Section Hover.

Import Index.

Variable useTouchEvents : bool.
Variable effect : option string.
Variable b : browser.

Lemma touchEvent_of_delivered event te p :
  delivered useTouchEvents event = Some te ->
  touchEvent_of useTouchEvents event p = (Ok te, p)
  /\ exists pt, te = MouseEvent pt \/ te = Touch pt.
Proof.
  unfold delivered, touchEvent_of. destruct useTouchEvents.
  - destruct event as [ | [ | t ts ] | | ]; try discriminate.
    intros [= <-]. split; [ reflexivity | eauto ].
  - destruct event; try discriminate. intros [= <-]. split; [ reflexivity | eauto ].
Qed.

(** [touchEvent_of] reads the event and changes nothing. *)
Lemma touchEvent_of_state event p :
  snd (touchEvent_of useTouchEvents event p) = p.
Proof.
  unfold touchEvent_of. destruct useTouchEvents; [ | reflexivity ].
  destruct event; reflexivity.
Qed.

(** [updatePosition] changes the tree of [el] at most, and returns for an
    event that carries coordinates. *)
Lemma updatePosition_frame event w :
  let w' := snd (updatePosition b event w) in
  isOpen (this w') = isOpen (this w)
  /\ tl (this w') = tl (this w)
  /\ timelines w' = timelines w
  /\ console w' = console w
  /\ forall t, same_refs t w -> same_refs t w'.
Proof.
  unfold updatePosition, bind, lift, modify.
  destruct (calculateTooltipPosition b event); cbn; auto 10.
Qed.

Lemma updatePosition_returns pt (event : jsevent) w :
  event = MouseEvent pt \/ event = Touch pt ->
  fst (updatePosition b event w) = Ok tt.
Proof. intros [-> | ->]; reflexivity. Qed.

(** The only pending timer is due: it is taken off and its body runs at
    the time it was due. *)
Lemma step_elapse_due w st ht t n t0 cs un (k : nat) :
  due t <= t0 + Z.of_nat k ->
  step useTouchEvents effect b
       {| tooltip := w; showTimeout := st; hideTimeout := ht; pending := [t];
          next_id := n; now := t0; calls := cs; uncaught := un |}
       (Elapse k)
  = set_now (t0 + Z.of_nat k)
      (fire useTouchEvents effect b 0 (t0 + Z.of_nat k)
         (turn (run_task useTouchEvents effect b (job t))
            {| tooltip := w; showTimeout := st; hideTimeout := ht; pending := [];
               next_id := n; now := due t; calls := cs; uncaught := un |})).
Proof.
  intros Hdue. cbn [step now pending length fire next_timer].
  destruct (Z.leb_spec (due t) (t0 + Z.of_nat k)) as [H | H]; [ | lia ].
  cbn. rewrite decide_False by (intros H'; apply H'; reflexivity). reflexivity.
Qed.

(** An end event on a page without pending timer sets the hide timer. *)
Lemma step_end_idle w st ht n t0 cs un e :
  step useTouchEvents effect b
       {| tooltip := w; showTimeout := st; hideTimeout := ht; pending := [];
          next_id := n; now := t0; calls := cs; uncaught := un |}
       (EndEvent e)
  = {| tooltip := w; showTimeout := st; hideTimeout := Some n;
       pending := [ {| id := n; due := t0 + 40; job := Hide e |} ];
       next_id := S n; now := t0; calls := cs; uncaught := un |}.
Proof. destruct st; reflexivity. Qed.

(** A start event clears the pending hide timer and sets the show timer. *)
Lemma step_start_cancels_hide w st i e1 due1 n t0 cs un e :
  step useTouchEvents effect b
       {| tooltip := w; showTimeout := st; hideTimeout := Some i;
          pending := [ {| id := i; due := due1; job := Hide e1 |} ];
          next_id := n; now := t0; calls := cs; uncaught := un |}
       (StartEvent e)
  = {| tooltip := w; showTimeout := Some n; hideTimeout := Some i;
       pending := [ {| id := n; due := t0 + 40; job := Show e |} ];
       next_id := S n; now := t0; calls := cs; uncaught := un |}.
Proof.
  cbn. rewrite decide_False by (intros H; apply H; reflexivity). reflexivity.
Qed.

(** The body of the show timer on a closed tooltip, for an event of the
    device: both calls are made, and an exception of [toggle] is reported. *)
Lemma turn_show_closed (p : page) (event te : jsevent) :
  delivered useTouchEvents event = Some te ->
  isOpen (this (tooltip p)) = false ->
  turn (show useTouchEvents effect b event) p
  = let w1 := snd (updatePosition b te (tooltip p)) in
    let p2 := set_tooltip (snd (toggle effect te w1))
                (log_call (CallToggle effect te)
                   (set_tooltip w1 (log_call (CallUpdatePosition te) p))) in
    match fst (toggle effect te w1) with
    | Ok _ => p2
    | Throw e => report e p2
    end.
Proof.
  intros Hdel Hclosed.
  destruct (touchEvent_of_delivered event te p Hdel) as (Htouch & pt & Hpt).
  unfold turn, show. unfold bind at 1. rewrite Htouch.
  unfold bind at 1, gets at 1. rewrite Hclosed. cbn [negb].
  unfold bind, invoke. cbn [log_call tooltip].
  pose proof (updatePosition_returns pt te (tooltip p) Hpt) as Hret.
  destruct (updatePosition b te (tooltip p)) as [r1 w1]. cbn [fst snd] in Hret |- *.
  subst r1. cbn [set_tooltip log_call tooltip].
  destruct (toggle effect te w1) as [[ [] | e ] w2]; reflexivity.
Qed.

(** X13. Hovering opens the tooltip.  On a page where the tooltip is closed
    and no timer is pending, a start event followed by 40 ms or more makes
    the show timer call [updatePosition] and then [toggle], once each, with
    the event of the device (its first touch point on a touch device) and
    the trigger's effect name; afterwards the tooltip is open and no timer
    is pending. *)
Theorem hover_opens (p : page) (event te : jsevent) (k : nat) :
  delivered useTouchEvents event = Some te ->
  isOpen (this (tooltip p)) = false ->
  pending p = [] ->
  (40 <= k)%nat ->
  let p' := run useTouchEvents effect b p [StartEvent event; Elapse k] in
  calls p' = (calls p ++ [CallUpdatePosition te; CallToggle effect te])%list
  /\ tooltip p' = snd (toggle effect te (snd (updatePosition b te (tooltip p))))
  /\ isOpen (this (tooltip p')) = true
  /\ pending p' = []
  /\ now p' = now p + Z.of_nat k.
Proof.
  intros Hdel Hclosed Hpending Hk p'.
  destruct p as [w st ht pend n t0 cs un]. cbn in Hclosed, Hpending. subst pend.
  assert (Hopen : isOpen (this (snd (toggle effect te (snd (updatePosition b te w)))))
                  = true).
  { rewrite toggle_isOpen.
    destruct (updatePosition_frame te w) as (-> & _). rewrite Hclosed. reflexivity. }
  subst p'. unfold run. cbn [fold_left].
  rewrite step_start_idle. rewrite step_elapse_due by (cbn [due]; lia).
  cbn [job due run_task fire].
  rewrite (turn_show_closed _ event te Hdel) by exact Hclosed. cbn [tooltip] in *.
  cbv zeta.
  destruct (fst (toggle effect te (snd (updatePosition b te w))));
    cbn; rewrite <- app_assoc; auto.
Qed.


(** The body of the hide timer on an open tooltip. *)
Lemma turn_hide_open (p : page) (event : jsevent) :
  isOpen (this (tooltip p)) = true ->
  turn (hide effect event) p
  = let p2 := set_tooltip (snd (toggle effect event (tooltip p)))
                (log_call (CallToggle effect event) p) in
    match fst (toggle effect event (tooltip p)) with
    | Ok _ => p2
    | Throw e => report e p2
    end.
Proof.
  intros Hopen. unfold turn, hide, bind, gets, invoke. rewrite Hopen.
  cbn [log_call tooltip].
  destruct (toggle effect event (tooltip p)) as [[ [] | e ] w2]; reflexivity.
Qed.

(** X14. Leaving closes the tooltip.  On a page where the tooltip is open
    and no timer is pending, an end event followed by 40 ms or more makes
    the hide timer call [toggle] once, with the end event itself and the
    trigger's effect name, and nothing else; afterwards the tooltip is
    closed and no timer is pending. *)
Theorem leave_closes (p : page) (event : jsevent) (k : nat) :
  isOpen (this (tooltip p)) = true ->
  pending p = [] ->
  (40 <= k)%nat ->
  let p' := run useTouchEvents effect b p [EndEvent event; Elapse k] in
  calls p' = (calls p ++ [CallToggle effect event])%list
  /\ tooltip p' = snd (toggle effect event (tooltip p))
  /\ isOpen (this (tooltip p')) = false
  /\ pending p' = [].
Proof.
  intros Hopen Hpending Hk p'.
  destruct p as [w st ht pend n t0 cs un]. cbn in Hopen, Hpending. subst pend.
  pose proof (toggle_isOpen effect event w) as Htog. rewrite Hopen in Htog.
  subst p'. unfold run. cbn [fold_left].
  rewrite step_end_idle. rewrite step_elapse_due by (cbn [due]; lia).
  cbn [job due run_task fire].
  rewrite (turn_hide_open _ event) by exact Hopen. cbn [tooltip] in *. cbv zeta.
  destruct (fst (toggle effect event w)); cbn; auto.
Qed.

(** The show timer on an open tooltip calls nothing. *)
Lemma turn_show_open (p : page) (event : jsevent) :
  isOpen (this (tooltip p)) = true ->
  turn (show useTouchEvents effect b event) p = p
  \/ exists e, turn (show useTouchEvents effect b event) p = report e p.
Proof.
  intros Hopen.
  pose proof (touchEvent_of_state event p) as Hstate.
  destruct (touchEvent_of useTouchEvents event p) as [[te | e] q] eqn:Htouch;
    cbn [snd] in Hstate; subst q.
  - left. unfold turn, show. unfold bind at 1. rewrite Htouch.
    unfold bind, gets. rewrite Hopen. reflexivity.
  - right. exists e. unfold turn, show. unfold bind at 1. rewrite Htouch. reflexivity.
Qed.

(** X15. Coming back keeps the tooltip open.  On a page where the tooltip
    is open and no timer is pending, an end event followed by a start event
    less than 40 ms later hides nothing, however long one waits afterwards:
    the start event clears the hide timer, and the show timer that it sets
    finds the tooltip open.  The listeners call no method of the tooltip
    and the instance is unchanged. *)
Theorem reentry_keeps_open (p : page) (e1 e2 : jsevent) (d k : nat) :
  isOpen (this (tooltip p)) = true ->
  pending p = [] ->
  (d < 40)%nat ->
  let p' := run useTouchEvents effect b p
                [EndEvent e1; Elapse d; StartEvent e2; Elapse k] in
  tooltip p' = tooltip p /\ calls p' = calls p.
Proof.
  intros Hopen Hpending Hd p'.
  destruct p as [w st ht pend n t0 cs un]. cbn in Hopen, Hpending. subst pend.
  subst p'. unfold run. cbn [fold_left tooltip calls].
  rewrite step_end_idle.
  rewrite step_elapse_early by (cbn [due]; lia).
  rewrite step_start_cancels_hide.
  destruct (Z.le_gt_cases (t0 + Z.of_nat d + 40) (t0 + Z.of_nat d + Z.of_nat k))
    as [Hdue | Hearly].
  - rewrite step_elapse_due by (cbn [due]; exact Hdue).
    cbn [job due run_task fire].
    match goal with
    | |- context [ turn (show _ _ _ e2) ?q ] =>
        destruct (turn_show_open q e2 Hopen) as [-> | [e ->]]
    end; cbn; auto.
  - rewrite step_elapse_early by (cbn [due]; lia). cbn. auto.
Qed.

(** X16. A move event only repositions.  Whatever the page and the event,
    the move listener sets and clears no timer and never calls [toggle];
    [isOpen], the timelines and the console are unchanged.  On a closed
    tooltip it calls nothing at all; on an open one it calls
    [updatePosition] at most. *)
Theorem move_only_repositions (p : page) (event : jsevent) :
  let p' := step useTouchEvents effect b p (MoveEvent event) in
  pending p' = pending p
  /\ showTimeout p' = showTimeout p /\ hideTimeout p' = hideTimeout p
  /\ now p' = now p
  /\ isOpen (this (tooltip p')) = isOpen (this (tooltip p))
  /\ timelines (tooltip p') = timelines (tooltip p)
  /\ console (tooltip p') = console (tooltip p)
  /\ (calls p' = calls p
      \/ (isOpen (this (tooltip p)) = true
          /\ exists te, calls p' = (calls p ++ [CallUpdatePosition te])%list))
  /\ (isOpen (this (tooltip p)) = false -> tooltip p' = tooltip p).
Proof.
  intros p'.
  assert (Hcases :
    p' = p
    \/ (exists e, p' = report e p)
    \/ (isOpen (this (tooltip p)) = true
        /\ exists te (r : result unit),
             p' = (match r with Ok _ => fun q => q | Throw e => report e end)
                    (set_tooltip (snd (updatePosition b te (tooltip p)))
                       (log_call (CallUpdatePosition te) p)))).
  { assert (Hp' : p' = turn (on_move useTouchEvents b event) p) by reflexivity.
    clearbody p'. subst p'.
    pose proof (touchEvent_of_state event p) as Hstate.
    destruct (touchEvent_of useTouchEvents event p) as [[te | e] q] eqn:Htouch;
      cbn [snd] in Hstate; subst q.
    - destruct (isOpen (this (tooltip p))) eqn:Hopen.
      + right; right. split; [ reflexivity | ]. exists te.
        destruct (updatePosition b te (tooltip p)) as [r w1] eqn:Hup.
        exists r. unfold turn, on_move. unfold bind at 1. rewrite Htouch.
        unfold bind, gets. rewrite Hopen. unfold invoke. cbn [log_call tooltip].
        rewrite Hup. destruct r; reflexivity.
      + left. unfold turn, on_move. unfold bind at 1. rewrite Htouch.
        unfold bind, gets. rewrite Hopen. reflexivity.
    - right; left. exists e. unfold turn, on_move. unfold bind at 1.
      rewrite Htouch. reflexivity. }
  destruct Hcases as [-> | [[e ->] | (Hopen & te & r & ->)]].
  - auto 12.
  - cbn. auto 12.
  - destruct (updatePosition_frame te (tooltip p)) as (Ho & _ & Htl & Hco & _).
    destruct r as [ [] | e ]; cbn;
      (repeat split; try assumption; try congruence; right; split; eauto).
Qed.

End Hover.

Lemma hover_opens_witness :
  let p := Index.loaded Samples.demo in
  let e := Samples.mouse 900 700 in
  let p' := Index.run false (Some "effect2") Samples.viewport p
              [Index.StartEvent e; Index.Elapse 40] in
  Index.calls p'
  = (Index.calls p ++ [Index.CallUpdatePosition e; Index.CallToggle (Some "effect2") e])%list
  /\ Index.tooltip p'
     = snd (toggle (Some "effect2") e
              (snd (updatePosition Samples.viewport e (Index.tooltip p))))
  /\ isOpen (this (Index.tooltip p')) = true
  /\ Index.pending p' = []
  /\ Index.now p' = Index.now p + Z.of_nat 40.
Proof.
  apply (hover_opens false (Some "effect2") Samples.viewport
           (Index.loaded Samples.demo) (Samples.mouse 900 700) (Samples.mouse 900 700) 40);
    [ reflexivity | reflexivity | reflexivity | lia ].
Defined.

Lemma leave_closes_witness :
  let e := Samples.mouse 900 700 in
  let p := Index.run false (Some "effect2") Samples.viewport
             (Index.loaded Samples.demo) [Index.StartEvent e; Index.Elapse 40] in
  let p' := Index.run false (Some "effect2") Samples.viewport p
              [Index.EndEvent e; Index.Elapse 40] in
  Index.calls p' = (Index.calls p ++ [Index.CallToggle (Some "effect2") e])%list
  /\ Index.tooltip p' = snd (toggle (Some "effect2") e (Index.tooltip p))
  /\ isOpen (this (Index.tooltip p')) = false
  /\ Index.pending p' = [].
Proof.
  apply (leave_closes false (Some "effect2") Samples.viewport
           (Index.run false (Some "effect2") Samples.viewport
              (Index.loaded Samples.demo)
              [Index.StartEvent (Samples.mouse 900 700); Index.Elapse 40])
           (Samples.mouse 900 700) 40);
    [ reflexivity | reflexivity | lia ].
Defined.

Lemma reentry_keeps_open_witness :
  let e := Samples.mouse 900 700 in
  let p := Index.run false (Some "effect2") Samples.viewport
             (Index.loaded Samples.demo) [Index.StartEvent e; Index.Elapse 40] in
  let p' := Index.run false (Some "effect2") Samples.viewport p
              [Index.EndEvent e; Index.Elapse 15; Index.StartEvent e; Index.Elapse 60] in
  Index.tooltip p' = Index.tooltip p /\ Index.calls p' = Index.calls p.
Proof.
  apply (reentry_keeps_open false (Some "effect2") Samples.viewport
           (Index.run false (Some "effect2") Samples.viewport
              (Index.loaded Samples.demo)
              [Index.StartEvent (Samples.mouse 900 700); Index.Elapse 40])
           (Samples.mouse 900 700) (Samples.mouse 900 700) 15 60);
    [ reflexivity | reflexivity | lia ].
Defined.

(** * No exception with a valid effect name *)

Lemma Forall_filter_keep {A} (Q P : A -> Prop) `{forall x, Decision (P x)} (l : list A) :
  Forall Q l -> Forall Q (filter P l).
Proof.
  rewrite !Forall_forall. intros Hall x Hx.
  apply list_elem_of_filter in Hx as [_ Hx]. apply Hall, Hx.
Qed.

Section NoError.

Import Index.

Variable b : browser.
Variable effect : string.
Variable m : method.
Variable t : Tooltip.

Hypothesis effect_member : member (methodName effect) = Some m.
Hypothesis effect_routine : m <> AnimateTooltipContent.
Hypothesis t_bg : is_Some (bg (DOM t)).
Hypothesis t_title : is_Some (contentTitle (DOM t)).
Hypothesis t_cells : exists cs, cells (DOM t) = Some cs /\ cs <> [].

Lemma toggle_effect_ok (event : jsevent) (w : world) :
  same_refs t w -> event <> Undefined ->
  exists w', toggle (Some effect) event w = (Ok tt, w')
             /\ same_refs t w' /\ console w' = console w.
Proof.
  intros Hrefs Hev. destruct t_bg as [q Hq], t_cells as (cs & Hcs & Hne).
  destruct Hrefs as (Hb & Hc & Hti & Hde & Hce & Hr & Hk).
  destruct (call_effect_run m event (flip_isOpen w) cs q effect_routine Hev)
    as (w' & Hrun & part & _ & _ & _ & _ & _ & _ & Hcon & _ & Hsame).
  { cbn. rewrite Hti. exact t_title. }
  { cbn. rewrite Hce. exact Hcs. }
  { exact Hne. }
  { cbn. rewrite Hb. exact Hq. }
  exists w'. split.
  - unfold toggle, bind, modify, animateCells. rewrite effect_member. exact Hrun.
  - split; [ | exact Hcon ].
    destruct Hsame as (Hb' & Hc' & Hti' & Hde' & Hce' & Hr' & Hk'). cbn in *.
    repeat split; congruence.
Qed.

Lemma sound_turn_show pt p :
  sound t p ->
  let p' := turn (show false (Some effect) b (MouseEvent pt)) p in
  sound t p' /\ pending p' = pending p.
Proof.
  intros (Hun & Hcon & Hrefs & Hpend).
  destruct (isOpen (this (tooltip p))) eqn:Hopen.
  - assert (Hp' : turn (show false (Some effect) b (MouseEvent pt)) p = p).
    { unfold turn, show, bind, gets. cbn. rewrite Hopen. reflexivity. }
    cbv zeta. rewrite Hp'.
    split; [ exact (conj Hun (conj Hcon (conj Hrefs Hpend))) | reflexivity ].
  - cbv zeta.
    rewrite (turn_show_closed false (Some effect) b p (MouseEvent pt) (MouseEvent pt))
      by (reflexivity || exact Hopen).
    cbv zeta.
    destruct (updatePosition_frame b (MouseEvent pt) (tooltip p))
      as (_ & _ & _ & Hcon1 & Hrefs1).
    destruct (toggle_effect_ok (MouseEvent pt)
                (snd (updatePosition b (MouseEvent pt) (tooltip p))))
      as (w2 & Hrun & Hrefs2 & Hcon2); [ apply Hrefs1, Hrefs | discriminate | ].
    rewrite Hrun. cbn [fst snd].
    split; [ | reflexivity ].
    split; [ exact Hun | ]. split; [ cbn; congruence | ].
    split; [ exact Hrefs2 | exact Hpend ].
Qed.

Lemma sound_turn_hide pt p :
  sound t p ->
  let p' := turn (hide (Some effect) (MouseEvent pt)) p in
  sound t p' /\ pending p' = pending p.
Proof.
  intros (Hun & Hcon & Hrefs & Hpend).
  destruct (isOpen (this (tooltip p))) eqn:Hopen.
  - cbv zeta. rewrite (turn_hide_open (Some effect) p (MouseEvent pt)) by exact Hopen.
    cbv zeta.
    destruct (toggle_effect_ok (MouseEvent pt) (tooltip p))
      as (w2 & Hrun & Hrefs2 & Hcon2); [ exact Hrefs | discriminate | ].
    rewrite Hrun. cbn [fst snd].
    split; [ | reflexivity ].
    split; [ exact Hun | ]. split; [ cbn; congruence | ].
    split; [ exact Hrefs2 | exact Hpend ].
  - assert (Hp' : turn (hide (Some effect) (MouseEvent pt)) p = p).
    { unfold turn, hide, bind, gets. rewrite Hopen. reflexivity. }
    cbv zeta. rewrite Hp'.
    split; [ exact (conj Hun (conj Hcon (conj Hrefs Hpend))) | reflexivity ].
Qed.

Lemma next_timer_elem limit (l : list timer) tm :
  next_timer limit l = Some tm -> tm ∈ l.
Proof.
  induction l as [ | x l IH ]; cbn [next_timer]; [ discriminate | ].
  destruct (next_timer limit l) as [t' | ].
  - destruct ((due x <=? limit) && (due x <=? due t'));
      intros [= <-]; [ left | right; apply IH; reflexivity ].
  - destruct (due x <=? limit); [ | discriminate ]. intros [= <-]. left.
Qed.

Lemma sound_fire fuel limit :
  forall p, sound t p -> sound t (fire false (Some effect) b fuel limit p).
Proof.
  induction fuel as [ | fuel IH ]; intros p Hp; cbn [fire]; [ exact Hp | ].
  destruct (next_timer limit (pending p)) as [tm | ] eqn:Hnext; [ | exact Hp ].
  apply IH. destruct Hp as (Hun & Hcon & Hrefs & Hpend).
  assert (Htask : mouse_task (job tm)).
  { apply next_timer_elem in Hnext. rewrite Forall_forall in Hpend.
    apply Hpend, Hnext. }
  assert (Hq : sound t (set_now (due tm)
                        (set_pending (filter (fun t' => id t' <> id tm) (pending p))
                                     (next_id p) p))).
  { split; [ exact Hun | ]. split; [ exact Hcon | ]. split; [ exact Hrefs | ].
    cbn. apply Forall_filter_keep, Hpend. }
  destruct (job tm) as [[pt | | | ] | [pt | | | ]]; try contradiction; cbn [run_task].
  - apply sound_turn_show, Hq.
  - apply sound_turn_hide, Hq.
Qed.

(** The start and end listeners only set and clear timers. *)
Lemma sound_set_timer (p : page) (h : option nat) (j : task) :
  mouse_task j ->
  sound t p ->
  forall f : nat -> page -> page,
    (forall i q, uncaught (f i q) = uncaught q /\ tooltip (f i q) = tooltip q
                 /\ pending (f i q) = pending q) ->
    sound t (turn (clearTimeout h >>
                 let! i := setTimeout j 40 in
                 modify (f i)) p).
Proof.
  intros Hj (Hun & Hcon & Hrefs & Hpend) f Hf.
  unfold turn, bind, clearTimeout, setTimeout, modify.
  destruct h as [i | ]; cbn;
    match goal with
    | |- sound t (f ?i ?q) =>
        destruct (Hf i q) as (Hu & Ht & Hp); unfold sound; rewrite Hu, Ht, Hp; cbn
    end;
    (split; [ exact Hun | ]; split; [ exact Hcon | ]; split; [ exact Hrefs | ]);
    apply Forall_app; (split; [ | repeat constructor; exact Hj ]);
    [ apply Forall_filter_keep | ]; exact Hpend.
Qed.

Lemma sound_step p i : mouse_input i -> sound t p -> sound t (step false (Some effect) b p i).
Proof.
  intros Hi Hp.
  destruct i as [[pt | | | ] | [pt | | | ] | [pt | | | ] | ms];
    try contradiction; cbn [step].
  - unfold on_start. unfold bind at 1. unfold gets at 1.
    apply (sound_set_timer p (hideTimeout p) (Show (MouseEvent pt)) I Hp
             (fun i => set_showTimeout (Some i))).
    intros i q. repeat split.
  - destruct Hp as (Hun & Hcon & Hrefs & Hpend).
    unfold turn, on_move, bind, gets. cbn [touchEvent_of ret].
    destruct (isOpen (this (tooltip p))) eqn:Hopen;
      [ | exact (conj Hun (conj Hcon (conj Hrefs Hpend))) ].
    unfold invoke. cbn [log_call tooltip].
    destruct (updatePosition_frame b (MouseEvent pt) (tooltip p))
      as (_ & _ & _ & Hcon1 & Hrefs1).
    pose proof (updatePosition_returns b pt (MouseEvent pt) (tooltip p) (or_introl eq_refl))
      as Hret.
    destruct (updatePosition b (MouseEvent pt) (tooltip p)) as [r w1].
    cbn [fst snd] in *. subst r.
    split; [ exact Hun | ]. split; [ cbn; congruence | ].
    split; [ apply Hrefs1, Hrefs | exact Hpend ].
  - unfold on_end. unfold bind at 1. unfold gets at 1.
    apply (sound_set_timer p (showTimeout p) (Hide (MouseEvent pt)) I Hp
             (fun i => set_hideTimeout (Some i))).
    intros i q. repeat split.
  - assert (Hf : sound t (fire false (Some effect) b (length (pending p))
                          (now p + Z.of_nat ms) p))
      by (apply sound_fire; exact Hp).
    destruct Hf as (H1 & H2 & H3 & H4).
    split; [ exact H1 | ]. split; [ exact H2 | ]. split; [ exact H3 | exact H4 ].
Qed.

Lemma sound_run inputs :
  forall p, Forall mouse_input inputs -> sound t p ->
            sound t (run false (Some effect) b p inputs).
Proof.
  induction inputs as [ | i inputs IH ]; intros p Hin Hp; [ exact Hp | ].
  apply Forall_cons in Hin as [Hi Hin]. cbn [run fold_left].
  apply IH; [ exact Hin | apply sound_step; assumption ].
Qed.

End NoError.

(** X17. With one of the six effect names on the trigger, a constructed
    tooltip that has its title and description nodes and positive row and
    column counts, and a mouse device, no sequence of mouse events and delays makes an
    exception leave a listener or a timer, and nothing is ever written to
    the console. *)
Theorem mouse_events_never_throw
    (DOM_el : element) (t : Tooltip) (b : browser)
    (effect : string) (m : method) (inputs : list Index.input) :
  constructor DOM_el = Ok t ->
  is_Some (contentTitle (DOM t)) ->
  is_Some (contentDescription (DOM t)) ->
  0 < rows t -> 0 < cols t ->
  member (methodName effect) = Some m ->
  m <> AnimateTooltipContent ->
  Forall mouse_input inputs ->
  let p := Index.run false (Some effect) b (Index.loaded t) inputs in
  Index.uncaught p = [] /\ console (Index.tooltip p) = [].
Proof.
  intros Hnew Htitle _ Hrows Hcols Hm Hne Hin p.
  destruct (constructor_cells DOM_el t Hnew Hrows Hcols) as (q & cs & Hq & Hc & Hcs).
  assert (Hsound : sound t p).
  { apply (sound_run b effect m t Hm Hne); [ | | | exact Hin | ].
    - rewrite Hq. eauto.
    - exact Htitle.
    - eauto.
    - split; [ reflexivity | ]. split; [ reflexivity | ].
      split; [ repeat split | constructor ]. }
  destruct Hsound as (Hun & Hcon & _). split; assumption.
Qed.

Lemma mouse_events_never_throw_witness :
  let e := Samples.mouse 900 700 in
  let p := Index.run false (Some "effect1") Samples.viewport (Index.loaded Samples.demo)
             [Index.StartEvent e; Index.Elapse 40; Index.MoveEvent e;
              Index.EndEvent e; Index.Elapse 40] in
  Index.uncaught p = [] /\ console (Index.tooltip p) = [].
Proof.
  apply (mouse_events_never_throw (Samples.tooltip_el ∅) Samples.demo Samples.viewport
           "effect1" AnimateEffect1
           [Index.StartEvent (Samples.mouse 900 700); Index.Elapse 40;
            Index.MoveEvent (Samples.mouse 900 700);
            Index.EndEvent (Samples.mouse 900 700); Index.Elapse 40]
           constructor_demo);
    [ eexists; reflexivity | eexists; reflexivity | reflexivity | reflexivity
    | reflexivity | discriminate | repeat constructor ].
Defined.

(** * The top level of the script *)

Lemma make_tooltip_cases (tr : Script.trigger) (doc : gmap string element) :
  let key := default "undefined" (Script.dataset_tooltip tr) in
  match Script.make_tooltip tr doc with
  | (Ok o, doc') =>
      (o = None <-> doc !! key = None)
      /\ (forall t, o = Some t -> isOpen t = false /\ tl t = None
                    /\ exists e, doc !! key = Some e /\ constructor e = Ok t)
      /\ (forall k, k <> key -> doc' !! k = doc !! k)
      /\ (doc' !! key = None <-> doc !! key = None)
  | (Throw err, doc') =>
      doc' = doc /\ exists e, doc !! key = Some e /\ constructor e = Throw err
  end.
Proof.
  intros key. unfold Script.make_tooltip, Script.getElementById. fold key.
  destruct (doc !! key) as [e | ] eqn:He.
  - destruct (constructor e) as [t | err] eqn:Hnew.
    + split; [ split; discriminate | ].
      split; [ intros t' [= <-]; destruct (constructor_tl e t Hnew); eauto | ].
      split; [ intros k Hk; apply lookup_insert_ne; congruence | ].
      rewrite lookup_insert_eq. split; discriminate.
    + split; [ reflexivity | eauto ].
  - split; [ split; reflexivity | ].
    split; [ discriminate | ]. split; [ reflexivity | ]. rewrite He. reflexivity.
Qed.

Lemma tooltips_ok (triggers : list Script.trigger) :
  forall doc l doc',
    Script.tooltips triggers doc = (Ok l, doc') ->
    length l = length triggers
    /\ (forall k, doc' !! k = None <-> doc !! k = None)
    /\ forall i tr, triggers !! i = Some tr ->
         exists o, l !! i = Some o
           /\ (o = None <-> Script.getElementById doc (Script.dataset_tooltip tr) = None)
           /\ forall t, o = Some t -> isOpen t = false /\ tl t = None.
Proof.
  induction triggers as [ | tr0 rest IH ]; intros doc l doc'; cbn [Script.tooltips].
  - intros [= <- <-]. split; [ reflexivity | ]. split; [ reflexivity | ].
    intros i tr Hi. discriminate.
  - unfold bind at 1. pose proof (make_tooltip_cases tr0 doc) as Hhead.
    destruct (Script.make_tooltip tr0 doc) as [[o | err] doc1]; [ | discriminate ].
    cbv zeta in Hhead. destruct Hhead as (Hnone & Hsome & Hother & Hkey).
    unfold bind at 1.
    destruct (Script.tooltips rest doc1) as [[ts | err] doc2] eqn:Hrest; [ | discriminate ].
    intros [= <- <-]. destruct (IH doc1 ts doc2 Hrest) as (Hlen & Hkeys & Hall).
    assert (Hk1 : forall k, doc1 !! k = None <-> doc !! k = None).
    { intros k. destruct (decide (k = default "undefined" (Script.dataset_tooltip tr0)))
        as [-> | Hne]; [ exact Hkey | rewrite Hother by exact Hne; reflexivity ]. }
    split; [ cbn; rewrite Hlen; reflexivity | ].
    split; [ intros k; rewrite Hkeys; apply Hk1 | ].
    intros [ | i ] tr Hi; cbn in Hi.
    + injection Hi as <-. exists o. split; [ reflexivity | ].
      split; [ exact Hnone | ]. intros t Ht. destruct (Hsome t Ht) as (H1 & H2 & _). auto.
    + destruct (Hall i tr Hi) as (o' & Ho' & Hnone' & Hsome').
      exists o'. split; [ exact Ho' | ]. split; [ | exact Hsome' ].
      rewrite Hnone'. apply Hk1.
Qed.

(** X18. When the script runs to its end, the triggers and their bindings
    correspond by index (the listeners read [tooltips[index]]): there is
    one entry per trigger; a trigger is left without listeners exactly
    when the document has no element with the id it names, and this is no
    error; every other trigger is bound to a tooltip that is closed, has no
    timeline, and has no timer pending. *)
Theorem script_binds_by_index
    (triggers : list Script.trigger) (doc doc' : gmap string element)
    (bs : list (option (Script.trigger * Index.page))) :
  Script.script triggers doc = (Ok bs, doc') ->
  length bs = length triggers
  /\ forall i tr, triggers !! i = Some tr ->
       exists o, bs !! i = Some o
         /\ (o = None <-> Script.getElementById doc (Script.dataset_tooltip tr) = None)
         /\ forall tr' p, o = Some (tr', p) ->
              tr' = tr
              /\ isOpen (this (Index.tooltip p)) = false
              /\ tl (this (Index.tooltip p)) = None
              /\ Index.pending p = [].
Proof.
  unfold Script.script, bind.
  destruct (Script.tooltips triggers doc) as [[ts | err] doc1] eqn:Hts; [ | discriminate ].
  intros [= <- <-]. destruct (tooltips_ok triggers doc ts doc1 Hts) as (Hlen & _ & Hall).
  unfold Script.bindings. split; [ rewrite length_zip_with; lia | ].
  intros i tr Hi. destruct (Hall i tr Hi) as (o & Ho & Hnone & Hsome).
  exists ((fun x => (tr, Index.loaded x)) <$> o).
  split; [ rewrite lookup_zip_with, Hi; cbn; rewrite Ho; reflexivity | ].
  split.
  - rewrite <- Hnone. destruct o; cbn; split; discriminate || reflexivity.
  - intros tr' p Hp. destruct o as [t | ]; [ | discriminate ].
    cbn in Hp. injection Hp as <- <-. destruct (Hsome t eq_refl) as [H1 H2].
    cbn. auto.
Qed.

(** X19. One broken target stops everything.  If some trigger names an
    element for which the constructor throws (an element without content
    block or without background block), the script throws while building
    the instances, so no trigger gets listeners, not even those whose
    target is well formed. *)
Theorem script_aborts_on_broken_target
    (triggers : list Script.trigger) (doc : gmap string element)
    (tr : Script.trigger) (e : element) (err : error) :
  tr ∈ triggers ->
  Script.getElementById doc (Script.dataset_tooltip tr) = Some e ->
  constructor e = Throw err ->
  exists err', fst (Script.script triggers doc) = Throw err'.
Proof.
  intros Hin He Hthrow.
  assert (Hts : exists err', fst (Script.tooltips triggers doc) = Throw err').
  { revert doc He. induction triggers as [ | tr0 rest IH ]; intros doc He.
    - apply elem_of_nil in Hin. contradiction.
    - cbn [Script.tooltips]. unfold bind at 1.
      pose proof (make_tooltip_cases tr0 doc) as Hhead.
      destruct (Script.make_tooltip tr0 doc) as [[o | err0] doc1];
        [ | exists err0; reflexivity ].
      cbv zeta in Hhead. destruct Hhead as (Hnone & Hsome & Hother & Hkey).
      assert (Hrest : tr ∈ rest /\ Script.getElementById doc1 (Script.dataset_tooltip tr)
                                   = Some e).
      { unfold Script.getElementById in *.
        destruct (decide (default "undefined" (Script.dataset_tooltip tr)
                          = default "undefined" (Script.dataset_tooltip tr0)))
          as [Heq | Hne].
        - exfalso. rewrite Heq in He. destruct o as [t | ].
          + destruct (Hsome t eq_refl) as (_ & _ & e0 & He0 & Hok). congruence.
          + destruct Hnone as [Hn _]. rewrite (Hn eq_refl) in He. discriminate.
        - split; [ | rewrite Hother by exact Hne; exact He ].
          apply elem_of_cons in Hin as [-> | Hin]; [ contradiction | exact Hin ]. }
      destruct Hrest as [Hin' He'].
      destruct (IH Hin' doc1 He') as [err' Herr'].
      unfold bind. destruct (Script.tooltips rest doc1) as [[ts | err1] doc2];
        [ discriminate | exists err1; reflexivity ]. }
  destruct Hts as [err' Herr']. unfold Script.script, bind.
  destruct (Script.tooltips triggers doc) as [[ts | err1] doc2];
    [ discriminate | exists err1; reflexivity ].
Qed.

Lemma script_binds_by_index_witness :
  let triggers := [MoreSamples.good; MoreSamples.dangling] in
  let bs := [Some (MoreSamples.good, Index.loaded Samples.demo); None] in
  length bs = length triggers
  /\ forall i tr, triggers !! i = Some tr ->
       exists o, bs !! i = Some o
         /\ (o = None
             <-> Script.getElementById MoreSamples.document (Script.dataset_tooltip tr)
                 = None)
         /\ forall tr' p, o = Some (tr', p) ->
              tr' = tr
              /\ isOpen (this (Index.tooltip p)) = false
              /\ tl (this (Index.tooltip p)) = None
              /\ Index.pending p = [].
Proof.
  apply (script_binds_by_index [MoreSamples.good; MoreSamples.dangling]
           MoreSamples.document
           (<["tip" := el (DOM Samples.demo)]> MoreSamples.document)
           [Some (MoreSamples.good, Index.loaded Samples.demo); None]).
  vm_compute. reflexivity.
Defined.

Lemma script_aborts_on_broken_target_witness :
  exists err',
    fst (Script.script [MoreSamples.good; MoreSamples.broken; MoreSamples.dangling]
                       MoreSamples.document)
    = Throw err'.
Proof.
  apply (script_aborts_on_broken_target
           [MoreSamples.good; MoreSamples.broken; MoreSamples.dangling]
           MoreSamples.document MoreSamples.broken Samples.no_content_el
           (TypeError "Cannot read properties of null (reading 'querySelector')"));
    [ apply elem_of_cons; right; apply elem_of_cons; left; reflexivity
    | reflexivity | reflexivity ].
Defined.

Lemma position_box_in_viewport_witness :
  exists l t,
    calculateTooltipPosition MoreSamples.scrolled (Samples.mouse 900 700)
    = Ok {| left := JS.Num l; top := JS.Num t |}
    /\ 120 <= l /\ l + 200 <= 120 + 1024
    /\ 300 <= t /\ t + 100 <= 300 + 768.
Proof.
  apply (position_box_in_viewport MoreSamples.scrolled (Samples.mouse 900 700) 900 700);
    [ reflexivity | reflexivity | simpl; lia | simpl; lia | simpl; lia | simpl; lia ].
Defined.

Lemma position_between_scroll_and_pointer_witness :
  exists l t,
    calculateTooltipPosition MoreSamples.scrolled (Samples.mouse (-10) 2000)
    = Ok {| left := JS.Num l; top := JS.Num t |}
    /\ 120 <= l <= Z.max 120 (-10 + 120)
    /\ 300 <= t <= Z.max 300 (2000 + 300).
Proof.
  apply (position_between_scroll_and_pointer MoreSamples.scrolled
           (Samples.mouse (-10) 2000) (-10) 2000);
    [ reflexivity | reflexivity | simpl; lia | simpl; lia ].
Defined.

(** * The glitch callbacks *)

(** X20. When the node of a glitch callback exists, the callback returns
    and leaves the class [glitch] on that node exactly when the instance is
    open at the time the engine runs it (not when the animation was set
    up); nothing but the tree of the element changes. *)
Theorem glitch_follows_isOpen (w : world) (cb : callback) (q : path) (n : element) :
  match cb with
  | GlitchTitle => contentTitle (DOM (this w))
  | GlitchDescription => contentDescription (DOM (this w))
  end = Some q ->
  node_at q (el (DOM (this w))) = Some n ->
  exists w' n',
    run_callback cb w = (Ok tt, w')
    /\ node_at q (el (DOM (this w'))) = Some n'
    /\ has_class "glitch" n' = isOpen (this w)
    /\ isOpen (this w') = isOpen (this w)
    /\ timelines w' = timelines w /\ console w' = console w
    /\ same_refs (this w) w'.
Proof.
  intros Hq Hn. unfold run_callback, bind, gets. cbv beta iota.
  rewrite Hq. unfold modify.
  eexists. exists ((if isOpen (this w) then class_add "glitch" else class_remove "glitch") n).
  split; [ reflexivity | ]. cbn [set_this with_el this DOM el isOpen timelines console].
  split; [ apply node_at_modify_at, Hn | ].
  split; [ destruct (isOpen (this w));
           [ apply has_class_class_add | apply has_class_class_remove ] | ].
  repeat split.
Qed.

Lemma glitch_follows_isOpen_witness :
  exists w' n',
    run_callback GlitchTitle (initial (with_isOpen true Samples.demo)) = (Ok tt, w')
    /\ node_at [1%nat; 0%nat] (el (DOM (this w'))) = Some n'
    /\ has_class "glitch" n' = true
    /\ isOpen (this w') = true
    /\ timelines w' = [] /\ console w' = []
    /\ same_refs (with_isOpen true Samples.demo) w'.
Proof.
  exact (glitch_follows_isOpen (initial (with_isOpen true Samples.demo)) GlitchTitle
           [1%nat; 0%nat]
           (Element "h4" ["tooltip__content-title"] ∅ ∅ []) eq_refl eq_refl).
Defined.
